(** * Kalipso: a shallow embedding of the translation core of [kalipso.c]

    The transpiler reads a [.kpso] file line by line, tokenizes each line,
    classifies it as a [print], [input] or assignment statement, renders one
    line of C for it while numbering the variables it meets, and finally
    writes the C program.

    Conventions of the embedding.
    - A C string ([char *], [char[64]], ...) is a [string]: the characters
      before the terminating NUL.  [*p == 0] is therefore [p = ""], and
      [p++] is taking the tail.
    - [error(msg)] prints the message and calls [exit(1)]: a computation
      that may call it returns a [result], and [Fatal msg] is that exit.
    - A [strcat] or [strcpy] that does not fit its array writes past the
      end of it, and C defines no behaviour for that: [Overrun] is this
      outcome, and nothing is said of what the program does after it.
    - The globals [vars], [var_count], [output_lines] and [output_count] are
      the fields of a [state] record threaded through the functions; the two
      counters are the lengths of the two lists.
    - A slot index is an [int] below [MAX_VARS]: ["%d"] prints it in a few
      characters, so the [snprintf] calls that print one index into
      [char tmp[64]] or [char output[MAX_LINE]] never cut their text. *)

From Stdlib Require Import String Ascii List Bool Arith Lia ZArith.
From Stdlib Require Import DecimalString DecimalNat.
Import ListNotations.

Open Scope list_scope.
Open Scope string_scope.

(** ** Limits *)

Set Warnings "-abstract-large-number".

Definition MAX_VARS : nat := 256.
Definition MAX_LINE : nat := 1024.
Definition MAX_TOKENS : nat := 100.
Definition MAX_LINES : nat := 10000.

(** Capacity of one token: [char tokens[][64]], filled while [i < 63]. *)
Definition TOKEN_CHARS : nat := 63.

(** ** Character classes of <ctype.h>, C locale

    In the C locale no character above 127 is a letter, a digit or a
    space. *)

Module Ctype.

Definition between (lo hi : nat) (c : ascii) : bool :=
  let n := nat_of_ascii c in ((lo <=? n) && (n <=? hi))%nat.

Definition isdigit (c : ascii) : bool := between 48 57 c.
Definition isupper (c : ascii) : bool := between 65 90 c.
Definition islower (c : ascii) : bool := between 97 122 c.
Definition isalpha (c : ascii) : bool := isupper c || islower c.
Definition isalnum (c : ascii) : bool := isalpha c || isdigit c.

(** space, and the five controls from horizontal tab to carriage return *)
Definition isspace (c : ascii) : bool :=
  (nat_of_ascii c =? 32)%nat || between 9 13 c.

End Ctype.
Import Ctype.

Definition underscore : ascii := "_"%char.
Definition newline : ascii := "010"%char.
Definition dquote : ascii := "034"%char.
Definition hash : ascii := "#"%char.

(** [isalnum(c) || c == '_'], the test of the tokenizer and of the tail of
    an identifier. *)
Definition is_word_char (c : ascii) : bool :=
  isalnum c || Ascii.eqb c underscore.

(** ** is_identifier *)

Fixpoint all_word_chars (s : string) : bool :=
  match s with
  | EmptyString => true
  | String c r => if is_word_char c then all_word_chars r else false
  end.

Definition is_identifier (s : string) : bool :=
  match s with
  | EmptyString => false
  | String c r =>
      if negb (isalpha c) && negb (Ascii.eqb c underscore) then false
      else all_word_chars r
  end.

(** ** tokenize *)

(** [while (isspace( *p)) p++;] *)
Fixpoint skip_spaces (p : string) : string :=
  match p with
  | EmptyString => EmptyString
  | String c r => if isspace c then skip_spaces r else p
  end.

(** [while ((isalnum( *p) || *p == '_') && i < 63) tokens[n][i++] = *p++;]
    with [room = 63 - i]: the characters copied and the rest of the line. *)
Fixpoint take_word (room : nat) (p : string) : string * string :=
  match room, p with
  | S room', String c r =>
      if is_word_char c
      then let (tok, rest) := take_word room' r in (String c tok, rest)
      else (EmptyString, p)
  | _, _ => (EmptyString, p)
  end.

(** The outer loop, [while ( *p && *count < MAX_TOKENS)], with
    [room = MAX_TOKENS - *count]; every iteration that does not [break]
    stores one token. *)
Fixpoint tokenize_from (room : nat) (p : string) : list string :=
  match room with
  | 0 => []
  | S room' =>
      match skip_spaces p with
      | EmptyString => []
      | String c r =>
          if is_word_char c
          then let (tok, rest) := take_word TOKEN_CHARS (String c r) in
               tok :: tokenize_from room' rest
          else String c EmptyString :: tokenize_from room' r
      end
  end.

Definition tokenize (line : string) : list string :=
  tokenize_from MAX_TOKENS line.

(** ** Compilation state and fatal errors *)

Record variable : Type := mkVariable { name : string; used : Z }.

Record state : Type := mkState {
  vars : list variable;          (* vars[0 .. var_count) *)
  output_lines : list string     (* output_lines[0 .. output_count) *)
}.

Definition var_count (st : state) : nat := length (vars st).
Definition output_count (st : state) : nat := length (output_lines st).

(** The zero-initialised globals at program start. *)
Definition initial_state : state := mkState [] [].

Inductive result (A : Type) : Type :=
| Ok (a : A)
| Fatal (msg : string)
| Overrun.
Arguments Ok {A} a.
Arguments Fatal {A} msg.
Arguments Overrun {A}.

(** A computation over the globals that may stop the process. *)
Definition M (A : Type) : Type := state -> result (A * state).

Definition ret {A : Type} (a : A) : M A := fun st => Ok (a, st).

Definition bind {A B : Type} (m : M A) (k : A -> M B) : M B :=
  fun st =>
    match m st with
    | Ok (a, st') => k a st'
    | Fatal msg => Fatal msg
    | Overrun => Overrun
    end.

(** [error(msg)]: report and [exit(1)]. *)
Definition error {A : Type} (msg : string) : M A := fun _ => Fatal msg.

(** A write past the end of an array. *)
Definition overrun {A : Type} : M A := fun _ => Overrun.

Declare Scope kalipso_scope.
Delimit Scope kalipso_scope with kalipso.
Notation "x <- m ;; k" := (bind m (fun x => k))
  (at level 61, m at next level, right associativity) : kalipso_scope.
Notation "m ;;; k" := (bind m (fun _ => k))
  (at level 61, right associativity) : kalipso_scope.
Open Scope kalipso_scope.

(** ** find_or_add_var *)

(** The search loop, from index [i] over [vars[i ..]]. *)
Fixpoint find_var (nm : string) (vs : list variable) (i : nat) : option nat :=
  match vs with
  | [] => None
  | v :: vs' => if String.eqb (name v) nm then Some i
                else find_var nm vs' (S i)
  end.

Definition find_or_add_var (nm : string) : M nat :=
  fun st =>
    match find_var nm (vars st) 0 with
    | Some i => Ok (i, st)
    | None =>
        if (MAX_VARS <=? var_count st)%nat then Fatal "Too many variables"
        else Ok (var_count st,
                 mkState (vars st ++ [mkVariable nm 1%Z])%list (output_lines st))
    end.

(** ** add_output_line *)

Definition add_output_line (line : string) : M unit :=
  fun st =>
    if (MAX_LINES <=? output_count st)%nat then Fatal "Too many lines"
    else Ok (tt, mkState (vars st) (output_lines st ++ [line])%list).

(** ** compile_line *)

(** The conversion [%d] of a slot index. *)
Definition fmt_d (n : nat) : string :=
  NilEmpty.string_of_uint (Nat.to_uint n).

(** ["v%d"] *)
Definition var_ref (idx : nat) : string := "v" ++ fmt_d idx.

(** The body of both token loops up to the separator: the text appended
    for [tokens[i]]. *)
Definition token_text (tok : string) : M string :=
  if is_identifier tok
  then idx <- find_or_add_var tok ;; ret (var_ref idx)
  else ret tok.

(** [strcat(output, src)] with [char output[MAX_LINE]]: the text and its
    terminator take [strlen(output) + strlen(src) + 1] characters of the
    array. *)
Definition strcat (output src : string) : M string :=
  if (String.length (output ++ src) <? MAX_LINE)%nat
  then ret (output ++ src)
  else overrun.

(** [for (i = first; i < token_count; i++) { ...; if (i < token_count - 1)
    strcat(output, " "); }] over the tokens [tokens[first ..]]. *)
Fixpoint append_tokens (toks : list string) (output : string) : M string :=
  match toks with
  | [] => ret output
  | tok :: rest =>
      piece <- token_text tok ;;
      output <- strcat output piece ;;
      output <- match rest with
                | [] => ret output
                | _ :: _ => strcat output " "
                end ;;
      append_tokens rest output
  end.

(** ["    printf(\"%lld\\n\", "] *)
Definition printf_open : string :=
  "    printf(" ++ String dquote "%lld\n" ++ String dquote ", ".

(** ["    scanf(\"%%lld\", &v%d);"] *)
Definition scanf_line (idx : nat) : string :=
  "    scanf(" ++ String dquote "%lld" ++ String dquote ", &" ++ var_ref idx ++ ");".

(** ["    v%d = "] *)
Definition assign_open (idx : nat) : string := "    " ++ var_ref idx ++ " = ".

(** [compile_line] after the call of [tokenize]: [tokens] holds the
    [token_count] tokens of the line. *)
Definition compile_tokens (tokens : list string) : M unit :=
  let token_count := length tokens in
  match tokens with
  | [] => ret tt
  | tok0 :: _ =>
      if String.eqb tok0 "print" then
        if (token_count <? 2)%nat then error "print needs an argument"
        else
          output <- append_tokens (skipn 1 tokens) printf_open ;;
          output <- strcat output ");" ;;
          add_output_line output
      else if String.eqb tok0 "input" then
        if negb (token_count =? 2)%nat then error "input needs one variable"
        else if negb (is_identifier (nth 1 tokens ""))
        then error "input needs a variable name"
        else
          idx <- find_or_add_var (nth 1 tokens "") ;;
          add_output_line (scanf_line idx)
      else if (3 <=? token_count)%nat && String.eqb (nth 1 tokens "") "=" then
        if negb (is_identifier tok0) then error "Left side must be a variable"
        else
          var_idx <- find_or_add_var tok0 ;;
          output <- append_tokens (skipn 2 tokens) (assign_open var_idx) ;;
          output <- strcat output ";" ;;
          add_output_line output
      else error "Invalid statement"
  end.

Definition compile_line (line : string) : M unit :=
  match line with
  | EmptyString => ret tt                     (* strlen(line) == 0 *)
  | _ => compile_tokens (tokenize line)
  end.

(** ** main: the reading loop and the writing of the C file *)

(** [line[strcspn(line, "\n")] = 0] *)
Fixpoint chomp (line : string) : string :=
  match line with
  | EmptyString => EmptyString
  | String c r => if Ascii.eqb c newline then EmptyString
                  else String c (chomp r)
  end.

(** [p] after [while (isspace( *p)) p++], when the line is not skipped. *)
Definition statement_of (line : string) : option string :=
  match skip_spaces (chomp line) with
  | EmptyString => None
  | String c r => if Ascii.eqb c hash then None else Some (String c r)
  end.

(** [while (fgets(line, sizeof(line), in)) ...] over the successive
    results of [fgets]. *)
Fixpoint compile_file (lines : list string) : M unit :=
  match lines with
  | [] => ret tt
  | line :: rest =>
      match statement_of line with
      | None => compile_file rest                       (* continue *)
      | Some p => compile_line p ;;; compile_file rest
      end
  end.

Definition nl : string := String newline EmptyString.

(** The declaration loop, [for (i = 0; i < var_count; i++)], from index [i]
    with [todo = var_count - i]. *)
Fixpoint write_declarations (i todo : nat) : string :=
  match todo with
  | 0 => ""
  | S todo' =>
      var_ref i ++ " = 0" ++
      (match todo' with 0 => "" | S _ => ", " end) ++
      write_declarations (S i) todo'
  end.

(** The loop over [output_lines]: ["%s\n"] for each. *)
Fixpoint write_lines (ls : list string) : string :=
  match ls with
  | [] => ""
  | l :: ls' => l ++ nl ++ write_lines ls'
  end.

(** Everything [main] prints to the [.c] file. *)
Definition write_program (st : state) : string :=
  "#include <stdio.h>" ++ nl ++ nl ++
  "int main() {" ++ nl ++
  (match var_count st with
   | 0 => ""
   | S _ => "    long long " ++ write_declarations 0 (var_count st) ++ ";" ++ nl
   end) ++
  write_lines (output_lines st) ++
  "    return 0;" ++ nl ++
  "}" ++ nl.

(** One run of the translation: the text of the [.c] file, or the fatal
    error before anything is written. *)
Definition transpile (lines : list string) : result string :=
  match compile_file lines initial_state with
  | Ok (_, st) => Ok (write_program st)
  | Fatal msg => Fatal msg
  | Overrun => Overrun
  end.

(** ** Vocabulary of the specification

    The definitions below are not translated from the source: they say, in
    the words of the specification, what the source functions are compared
    with. *)

(** The names of the table, slot 0 first. *)
Definition names (vs : list variable) : list string := map name vs.

(** Whether a name is in the table. *)
Definition known (nm : string) (vs : list variable) : bool :=
  existsb (fun v => String.eqb (name v) nm) vs.

(** The position of the first occurrence of a name in a list of names (the
    length of the list when there is none). *)
Fixpoint slot_of (nm : string) (tbl : list string) : nat :=
  match tbl with
  | [] => 0
  | x :: tbl' => if String.eqb x nm then 0 else S (slot_of nm tbl')
  end.

(** The table after one resolution, and after a sequence of them. *)
Definition register (vs : list variable) (nm : string) : list variable :=
  if known nm vs then vs else (vs ++ [mkVariable nm 1%Z])%list.

Definition register_all (nms : list string) (vs : list variable)
  : list variable :=
  fold_left register nms vs.

(** The distinct names of a sequence in order of first occurrence, leaving
    out those already [seen]. *)
Fixpoint distinct_from (seen : list string) (xs : list string) : list string :=
  match xs with
  | [] => []
  | x :: xs' =>
      if existsb (String.eqb x) seen then distinct_from seen xs'
      else x :: distinct_from (seen ++ [x])%list xs'
  end.

Definition distinct (xs : list string) : list string := distinct_from [] xs.

(** Identifier substitution or verbatim passthrough, against a table. *)
Definition render (tbl : list variable) (tok : string) : string :=
  if is_identifier tok then var_ref (slot_of tok (names tbl)) else tok.

(** The tokens of an expression rendered and joined by single spaces. *)
Definition render_expr (tbl : list variable) (toks : list string) : string :=
  String.concat " " (map (render tbl) toks).

(** The identifiers among some tokens, in order. *)
Definition identifiers (toks : list string) : list string :=
  filter is_identifier toks.

(** "First character letter or underscore, rest alphanumeric or
    underscore." *)
Definition spec_identifier (s : string) : Prop :=
  exists c r, s = String c r /\
    (isalpha c = true \/ c = underscore) /\
    forall k d, String.get k r = Some d -> isalnum d = true \/ d = underscore.

(** The variable names a statement refers to, in the order of their
    occurrence in its tokens. *)
Definition statement_refs (tokens : list string) : list string :=
  match tokens with
  | [] => []
  | tok0 :: rest =>
      if String.eqb tok0 "print" then identifiers rest
      else if String.eqb tok0 "input" then firstn 1 rest
      else tok0 :: identifiers (skipn 1 rest)
  end.

(** The statements of a source file (comment and blank lines left out)
    and all the variable references of the file, in order. *)
Fixpoint statements (lines : list string) : list string :=
  match lines with
  | [] => []
  | line :: rest =>
      match statement_of line with
      | None => statements rest
      | Some p => p :: statements rest
      end
  end.

Definition program_refs (lines : list string) : list string :=
  flat_map (fun p => statement_refs (tokenize p)) (statements lines).

(** The declaration list [v0 = 0, ..., v(n-1) = 0] as the specification
    has it: one entry per slot, in slot order, separated by commas. *)
Definition spec_declarations (n : nat) : string :=
  String.concat ", " (map (fun i => var_ref i ++ " = 0") (seq 0 n)).

(** The tokenizer of the specification, without bounds: whitespace
    separates, a maximal run of word characters is one token, any other
    character is a token of its own.  [cur] is the run being read. *)
Definition flush (cur : string) : list string :=
  match cur with EmptyString => [] | _ => [cur] end.

Fixpoint spec_tokens (cur : string) (s : string) : list string :=
  match s with
  | EmptyString => flush cur
  | String c r =>
      if is_word_char c then spec_tokens (cur ++ String c EmptyString) r
      else if isspace c then (flush cur ++ spec_tokens EmptyString r)%list
      else (flush cur ++ String c EmptyString :: spec_tokens EmptyString r)%list
  end.

Definition spec_tokenize (line : string) : list string :=
  spec_tokens EmptyString line.

(** ** Derived notions used in the statements *)

(** Whether resolving the names [nms] in turn hits the full table: the
    first new name met when [MAX_VARS] slots are taken. *)
Fixpoint overflows (nms : list string) (vs : list variable) : bool :=
  match nms with
  | [] => false
  | nm :: nms' =>
      if known nm vs then overflows nms' vs
      else (MAX_VARS <=? length vs)%nat
           || overflows nms' (vs ++ [mkVariable nm 1%Z])%list
  end.

(** The line a [print] statement generates. *)
Definition print_line (tbl : list variable) (args : list string) : string :=
  printf_open ++ render_expr tbl args ++ ");".

(** The line an assignment generates. *)
Definition assign_line (tbl : list variable) (lhs : string)
           (rhs : list string) : string :=
  assign_open (slot_of lhs (names tbl)) ++ render_expr tbl rhs ++ ";".

(** What a statement leaves when nothing overflows: the new table and one
    more line. *)
Definition emitted (tbl : list variable) (line : string) (st : state)
  : result (unit * state) :=
  if (MAX_LINES <=? output_count st)%nat then Fatal "Too many lines"
  else Ok (tt, mkState tbl (output_lines st ++ [line])%list).

(** A table with every slot taken: [v0 .. v255]. *)
Definition full_table : list variable :=
  map (fun i => mkVariable (var_ref i) 1%Z) (seq 0 MAX_VARS).

(** The line a statement generates, against the table it leaves. *)
Definition statement_line (tbl : list variable) (tokens : list string)
  : string :=
  match tokens with
  | [] => ""
  | tok0 :: rest =>
      if String.eqb tok0 "print" then print_line tbl rest
      else if String.eqb tok0 "input"
      then scanf_line (slot_of (nth 0 rest "") (names tbl))
      else assign_line tbl tok0 (skipn 1 rest)
  end.

(** The body of the program: one line per statement, in the order of the
    statements, each against the table as the statement leaves it. *)
Fixpoint spec_body (stmts : list string) (vs : list variable) : list string :=
  match stmts with
  | [] => []
  | p :: stmts' =>
      let tbl := register_all (statement_refs (tokenize p)) vs in
      statement_line tbl (tokenize p) :: spec_body stmts' tbl
  end.

(** The program of the header comment of [kalipso.c], as [fgets] hands it
    over, with a comment line and a blank line added. *)
Definition sample : list string :=
  ["x = 5" ++ nl; "# sum" ++ nl; "y = 10" ++ nl; nl;
   "result = x + y" ++ nl; "print result" ++ nl].

(** Where a run of word characters ends: at the end of the line or before
    a character that is not a word character. *)
Definition stops (rest : string) : Prop :=
  match rest with
  | EmptyString => True
  | String c _ => is_word_char c = false
  end.

Fixpoint repeat_string (n : nat) (s : string) : string :=
  match n with
  | 0 => ""
  | S n' => s ++ repeat_string n' s
  end.

(** An assignment of 101 tokens: [x = 1 + 1 + ... + 1] with fifty [1]. *)
Definition long_line : string := "x = 1" ++ repeat_string 49 " + 1".

(** An assignment whose right-hand side is a literal of 64 digits. *)
Definition long_word : string := "x = " ++ repeat_string 64 "1".

(** A name of 64 letters. *)
Definition long_name : string := repeat_string 64 "a".

(** The shape of every token: a run of word characters, or one character
    that is neither a word character nor a space. *)
Definition token_shape (tok : string) : Prop :=
  (tok <> "" /\ all_word_chars tok = true) \/
  (exists c, tok = String c "" /\ is_word_char c = false /\ isspace c = false).

(** ** main: the names of the files *)

(** What [char base_name[256]], [char output[256]] and
    [char exe_name[256]] hold besides the terminator. *)
Definition PATH_CHARS : nat := 255.

(** [strrchr(s, c)]: the index of the last [c] in [s], [None] for NULL. *)
Fixpoint strrchr (s : string) (c : ascii) : option nat :=
  match s with
  | EmptyString => None
  | String d r =>
      match strrchr r c with
      | Some i => Some (S i)
      | None => if Ascii.eqb d c then Some 0 else None
      end
  end.

(** The string a pointer [s + i] points to. *)
Fixpoint string_drop (i : nat) (s : string) : string :=
  match i, s with
  | S i', String _ r => string_drop i' r
  | _, _ => s
  end.

(** [s] after [s[i] = 0]; also what [snprintf] keeps of a text in a buffer
    of [i + 1] characters. *)
Fixpoint string_take (i : nat) (s : string) : string :=
  match i, s with
  | S i', String c r => String c (string_take i' r)
  | _, _ => EmptyString
  end.

(** [dot = strrchr(base_name, '.'); if (dot && strcmp(dot, ".kpso") == 0)
    *dot = '\0';] on a [base_name] that holds [path]. *)
Definition strip_kpso (path : string) : string :=
  match strrchr path "."%char with
  | Some dot =>
      if String.eqb (string_drop dot path) ".kpso"
      then string_take dot path
      else path
  | None => path
  end.

(** [base_name] once the extension has been looked at.  The
    [strcpy(base_name, argv[1])] before it fits the array when the path has
    at most 255 characters; [None] is the copy that runs past it. *)
Definition base_name (path : string) : option string :=
  if (String.length path <=? PATH_CHARS)%nat
  then Some (strip_kpso path)
  else None.

(** [snprintf(output, sizeof(output), "%s.c", base_name)] *)
Definition output_name (path : string) : option string :=
  match base_name path with
  | Some base => Some (string_take PATH_CHARS (base ++ ".c"))
  | None => None
  end.

(** [snprintf(exe_name, sizeof(exe_name), "%s", base_name)], the branch
    taken when [_WIN32] is not defined. *)
Definition exe_name (path : string) : option string :=
  match base_name path with
  | Some base => Some (string_take PATH_CHARS base)
  | None => None
  end.

(** [snprintf(compile_cmd, sizeof(compile_cmd), "gcc %s -o %s", ...)] *)
Definition compile_cmd (path : string) : option string :=
  match output_name path, exe_name path with
  | Some output, Some exe =>
      Some (string_take 511 ("gcc " ++ output ++ " -o " ++ exe))
  | _, _ => None
  end.

(** ** Further notions used in the statements *)

(** A line without its whitespace. *)
Fixpoint remove_spaces (s : string) : string :=
  match s with
  | EmptyString => EmptyString
  | String c r => if isspace c then remove_spaces r
                  else String c (remove_spaces r)
  end.

(** Strings laid end to end. *)
Definition glue (toks : list string) : string :=
  fold_right String.append EmptyString toks.

Fixpoint all_spaces (s : string) : bool :=
  match s with
  | EmptyString => true
  | String c r => isspace c && all_spaces r
  end.

(** Whether a token starts with a letter or an underscore. *)
Definition starts_like_name (tok : string) : bool :=
  match tok with
  | EmptyString => false
  | String c _ => isalpha c || Ascii.eqb c underscore
  end.

(** The complaint of [compile_line] about the shape of a statement, if it
    has one. *)
Definition statement_error (tokens : list string) : option string :=
  match tokens with
  | [] => None
  | tok0 :: rest =>
      if String.eqb tok0 "print" then
        match rest with
        | [] => Some "print needs an argument"
        | _ :: _ => None
        end
      else if String.eqb tok0 "input" then
        match rest with
        | [target] => if is_identifier target then None
                      else Some "input needs a variable name"
        | _ => Some "input needs one variable"
        end
      else
        match rest with
        | eq :: _ :: _ =>
            if String.eqb eq "=" then
              if is_identifier tok0 then None
              else Some "Left side must be a variable"
            else Some "Invalid statement"
        | _ => Some "Invalid statement"
        end
  end.

(** What the arrays of the program can hold, and what [find_or_add_var]
    writes into them. *)
Definition well_formed (st : state) : Prop :=
  var_count st <= MAX_VARS /\
  output_count st <= MAX_LINES /\
  NoDup (names (vars st)) /\
  Forall (fun v => used v = 1%Z) (vars st).

(** A name that fits [char name[64]] and is an identifier. *)
Definition storable (nm : string) : Prop :=
  is_identifier nm = true /\ String.length nm <= TOKEN_CHARS.

(** A decimal digit and the decimal notation of a number, by division. *)
Definition digit (n : nat) : ascii := ascii_of_nat (48 + n).

Fixpoint decimal (fuel n : nat) : string :=
  match fuel with
  | 0 => EmptyString
  | S fuel' =>
      if (n <? 10)%nat then String (digit n) EmptyString
      else decimal fuel' (n / 10) ++ String (digit (n mod 10)) EmptyString
  end.

(** The diagnostics of the translation. *)
Definition diagnostics : list string :=
  ["print needs an argument"; "input needs one variable";
   "input needs a variable name"; "Left side must be a variable";
   "Invalid statement"; "Too many variables"; "Too many lines"].

(** The variable references of a file as its text has them, by the
    tokenizer of the specification, and the lines that the two bounds of
    [tokenize] leave whole. *)
Definition spec_program_refs (lines : list string) : list string :=
  flat_map (fun p => statement_refs (spec_tokenize p)) (statements lines).

Definition within_limits (p : string) : Prop :=
  length (spec_tokenize p) <= MAX_TOKENS /\
  Forall (fun tok => String.length tok <= TOKEN_CHARS) (spec_tokenize p).

(** What the token loop may come to, for the tokens [toks] appended to
    [output]: the text in full, the table overflowing before the text is
    complete, or the text reaching the end of the array. *)
Definition tokens_outcome (toks : list string) (output : string) (st : state)
           (r : result (string * state)) : Prop :=
  let tbl := register_all (identifiers toks) (vars st) in
  let full := output ++ render_expr tbl toks in
  match r with
  | Ok (o, st') =>
      overflows (identifiers toks) (vars st) = false /\
      String.length full < MAX_LINE /\
      o = full /\ st' = mkState tbl (output_lines st)
  | Fatal msg =>
      overflows (identifiers toks) (vars st) = true /\
      msg = "Too many variables"
  | Overrun => MAX_LINE <= String.length full
  end.

(** What a [print] or an assignment may come to, for the line [line] it
    renders against the table [tbl] it leaves; [full_table] says whether
    the table overflows on the way. *)
Definition statement_outcome (full_table : bool) (tbl : list variable)
           (line : string) (st : state) (r : result (unit * state)) : Prop :=
  match r with
  | Ok (_, st') =>
      full_table = false /\ String.length line < MAX_LINE /\
      output_count st < MAX_LINES /\
      st' = mkState tbl (output_lines st ++ [line])%list
  | Fatal msg =>
      (full_table = true /\ msg = "Too many variables") \/
      (full_table = false /\ String.length line < MAX_LINE /\
       MAX_LINES <= output_count st /\ msg = "Too many lines")
  | Overrun => MAX_LINE <= String.length line
  end.

(** * Properties *)

(** ** Strings *)

Lemma append_nil_r (s : string) : s ++ "" = s.
Proof. induction s as [|c s IH]; simpl; [reflexivity | now rewrite IH]. Qed.

Lemma append_assoc (a b c : string) : (a ++ b) ++ c = a ++ (b ++ c).
Proof. induction a as [|x a IH]; simpl; [reflexivity | now rewrite IH]. Qed.

Lemma length_append (a b : string) :
  String.length (a ++ b) = String.length a + String.length b.
Proof. induction a as [|x a IH]; simpl; [reflexivity | now rewrite IH]. Qed.

(** ** The symbol table *)

Lemma known_In (nm : string) (vs : list variable) :
  known nm vs = true <-> In nm (names vs).
Proof.
  unfold known, names. rewrite existsb_exists, in_map_iff.
  split; intros [v [H1 H2]]; exists v.
  - apply String.eqb_eq in H2. now split.
  - split; [assumption | now apply String.eqb_eq].
Qed.

Lemma known_app (nm : string) (vs ws : list variable) :
  known nm (vs ++ ws) = known nm vs || known nm ws.
Proof. unfold known. apply existsb_app. Qed.

Lemma find_var_spec (nm : string) (vs : list variable) (i : nat) :
  find_var nm vs i =
  if known nm vs then Some (i + slot_of nm (names vs)) else None.
Proof.
  revert i. induction vs as [|v vs IH]; intro i; simpl; [reflexivity|].
  destruct (String.eqb (name v) nm); simpl.
  - f_equal. lia.
  - rewrite IH. destruct (known nm vs); [f_equal; lia | reflexivity].
Qed.

Lemma slot_of_app (nm : string) (l m : list string) :
  In nm l -> slot_of nm (l ++ m) = slot_of nm l.
Proof.
  induction l as [|x l IH]; simpl; [tauto|].
  intros [->|H].
  - now rewrite String.eqb_refl.
  - destruct (String.eqb x nm); [reflexivity | now rewrite IH].
Qed.

Lemma slot_of_fresh (nm : string) (l m : list string) :
  ~ In nm l -> slot_of nm (l ++ nm :: m) = length l.
Proof.
  induction l as [|x l IH]; simpl; intro H.
  - now rewrite String.eqb_refl.
  - destruct (String.eqb_spec x nm) as [->|_]; [tauto|].
    rewrite IH; tauto.
Qed.

Lemma slot_of_lt (nm : string) (l : list string) :
  In nm l -> slot_of nm l < length l /\ nth_error l (slot_of nm l) = Some nm.
Proof.
  induction l as [|x l IH]; simpl; [tauto|].
  intro H. destruct (String.eqb_spec x nm) as [->|Hne].
  - split; [lia | reflexivity].
  - destruct H as [H|H]; [contradiction|].
    destruct (IH H). split; [lia | assumption].
Qed.

Lemma names_app (vs ws : list variable) :
  names (vs ++ ws) = (names vs ++ names ws)%list.
Proof. apply map_app. Qed.

Lemma register_extends (vs : list variable) (nm : string) :
  exists more, register vs nm = (vs ++ more)%list.
Proof.
  unfold register. destruct (known nm vs).
  - exists []. now rewrite app_nil_r.
  - now exists [mkVariable nm 1%Z].
Qed.

Lemma register_all_extends (nms : list string) (vs : list variable) :
  exists more, register_all nms vs = (vs ++ more)%list.
Proof.
  revert vs. induction nms as [|nm nms IH]; intro vs; simpl.
  - exists []. now rewrite app_nil_r.
  - destruct (register_extends vs nm) as [m1 E1].
    destruct (IH (register vs nm)) as [m2 E2].
    exists (m1 ++ m2)%list. unfold register_all in *. rewrite E2, E1.
    now rewrite app_assoc.
Qed.

Lemma register_all_length (nms : list string) (vs : list variable) :
  length vs <= length (register_all nms vs).
Proof.
  destruct (register_all_extends nms vs) as [m E]. rewrite E, length_app. lia.
Qed.

Lemma register_old (vs : list variable) (nm : string) :
  known nm vs = true -> register vs nm = vs.
Proof. unfold register. now intros ->. Qed.

Lemma register_new (vs : list variable) (nm : string) :
  known nm vs = false -> register vs nm = (vs ++ [mkVariable nm 1%Z])%list.
Proof. unfold register. now intros ->. Qed.

Lemma register_known (vs : list variable) (nm : string) :
  known nm (register vs nm) = true.
Proof.
  unfold register. destruct (known nm vs) eqn:E; [assumption|].
  rewrite known_app. simpl. rewrite String.eqb_refl.
  now rewrite orb_true_r.
Qed.

(** What [find_or_add_var] returns, in one equation. *)
Lemma find_or_add_var_eq (nm : string) (st : state) :
  find_or_add_var nm st =
  if known nm (vars st) then Ok (slot_of nm (names (vars st)), st)
  else if (MAX_VARS <=? var_count st)%nat then Fatal "Too many variables"
  else Ok (var_count st,
           mkState (vars st ++ [mkVariable nm 1%Z])%list (output_lines st)).
Proof.
  unfold find_or_add_var. rewrite find_var_spec.
  destruct (known nm (vars st)); reflexivity.
Qed.

Lemma overflows_room (nms : list string) (vs : list variable) :
  length (register_all nms vs) <= MAX_VARS -> overflows nms vs = false.
Proof.
  revert vs. induction nms as [|nm nms IH]; intros vs H;
    cbn [overflows]; [reflexivity|].
  cbn [register_all fold_left] in H.
  fold (register_all nms (register vs nm)) in H.
  change (register vs nm)
    with (if known nm vs then vs else (vs ++ [mkVariable nm 1%Z])%list) in H.
  destruct (known nm vs); [now apply IH|].
  rewrite (IH _ H), orb_false_r.
  pose proof (register_all_length nms (vs ++ [mkVariable nm 1%Z])%list) as L.
  rewrite length_app in L. cbn [length] in L.
  apply Nat.leb_gt. lia.
Qed.

Lemma concat_cons (sep x : string) (xs : list string) :
  String.concat sep (x :: xs) =
  match xs with [] => x | _ :: _ => x ++ sep ++ String.concat sep xs end.
Proof. destruct xs; reflexivity. Qed.

Lemma slot_of_register_all (nm : string) (nms : list string)
      (vs : list variable) :
  known nm vs = true ->
  slot_of nm (names (register_all nms vs)) = slot_of nm (names vs).
Proof.
  intro K. destruct (register_all_extends nms vs) as [m ->].
  rewrite names_app. apply slot_of_app. now apply known_In.
Qed.

Lemma render_identifier (tbl : list variable) (tok : string) :
  is_identifier tok = true ->
  render tbl tok = var_ref (slot_of tok (names tbl)).
Proof. unfold render. now intros ->. Qed.

Lemma render_other (tbl : list variable) (tok : string) :
  is_identifier tok = false -> render tbl tok = tok.
Proof. unfold render. now intros ->. Qed.

(** One turn of the loop on the output buffer. *)
Lemma append_step (output piece : string) (f : string -> string)
      (rest : list string) :
  (match rest with
   | [] => output ++ piece
   | _ :: _ => (output ++ piece) ++ " "
   end) ++ String.concat " " (map f rest) =
  output ++ String.concat " " (piece :: map f rest).
Proof.
  rewrite concat_cons. destruct rest as [|t rest]; cbn [map].
  - cbn [String.concat]. now rewrite append_nil_r.
  - now rewrite !append_assoc.
Qed.

(** ** The three statement forms *)

Lemma find_or_add_var_overflows (nm : string) (st : state) :
  find_or_add_var nm st =
  if overflows [nm] (vars st) then Fatal "Too many variables"
  else Ok (slot_of nm (names (register (vars st) nm)),
           mkState (register (vars st) nm) (output_lines st)).
Proof.
  rewrite find_or_add_var_eq. cbn [overflows]. unfold register, var_count.
  destruct (known nm (vars st)) eqn:K.
  - now destruct st.
  - rewrite orb_false_r.
    destruct (MAX_VARS <=? length (vars st))%nat; [reflexivity|].
    rewrite names_app. cbn [names map name]. rewrite slot_of_fresh.
    + unfold names at 1. now rewrite length_map.
    + intro Hin. apply known_In in Hin. congruence.
Qed.

Lemma overflows_cons (nm : string) (nms : list string) (vs : list variable) :
  overflows (nm :: nms) vs = overflows [nm] vs || overflows nms (register vs nm).
Proof.
  cbn [overflows]. unfold register.
  destruct (known nm vs); [reflexivity | now rewrite orb_false_r].
Qed.

(** The text appended for one token and the state it leaves. *)
Lemma token_text_eq (tok : string) (st : state) :
  token_text tok st =
  if is_identifier tok then
    if overflows [tok] (vars st) then Fatal "Too many variables"
    else Ok (var_ref (slot_of tok (names (register (vars st) tok))),
             mkState (register (vars st) tok) (output_lines st))
  else Ok (tok, st).
Proof.
  unfold token_text. destruct (is_identifier tok); [|reflexivity].
  unfold bind. rewrite find_or_add_var_overflows.
  destruct (overflows [tok] (vars st)); reflexivity.
Qed.

Lemma strcat_eq (output src : string) (st : state) :
  strcat output src st =
  if (String.length (output ++ src) <? MAX_LINE)%nat
  then Ok (output ++ src, st) else Overrun.
Proof. unfold strcat. now destruct (_ <? _)%nat. Qed.

(** The loop after the text of its first token is known. *)
Lemma append_tokens_step (tok : string) (rest : list string)
      (output piece : string) (st st1 : state) :
  register_all (identifiers (tok :: rest)) (vars st) =
    register_all (identifiers rest) (vars st1) ->
  overflows (identifiers (tok :: rest)) (vars st) =
    overflows (identifiers rest) (vars st1) ->
  render (register_all (identifiers rest) (vars st1)) tok = piece ->
  output_lines st1 = output_lines st ->
  (forall o, String.length o < MAX_LINE ->
             tokens_outcome rest o st1 (append_tokens rest o st1)) ->
  tokens_outcome (tok :: rest) output st
    ((out <- strcat output piece ;;
      out <- match rest with
             | [] => ret out
             | _ :: _ => strcat out " "
             end ;;
      append_tokens rest out) st1).
Proof.
  intros Etbl Eovf Epiece Eols IH.
  unfold tokens_outcome. rewrite Etbl, Eovf, <- Eols.
  set (tbl := register_all (identifiers rest) (vars st1)) in *.
  assert (Efull : forall out,
            out = match rest with
                  | [] => output ++ piece
                  | _ :: _ => (output ++ piece) ++ " "
                  end ->
            output ++ render_expr tbl (tok :: rest) =
            out ++ render_expr tbl rest).
  { intros out ->. unfold render_expr. cbn [map]. rewrite Epiece.
    symmetry. apply append_step. }
  unfold bind at 1. rewrite strcat_eq.
  destruct (Nat.ltb_spec (String.length (output ++ piece)) MAX_LINE)
    as [L1|L1].
  2:{ cbn zeta. rewrite (Efull _ eq_refl), length_append.
      rewrite length_append in L1.
      destruct rest; rewrite ?length_append; lia. }
  unfold bind at 1. destruct rest as [|r rest].
  - unfold ret at 1. specialize (IH _ L1). unfold tokens_outcome in IH.
    fold tbl in IH. cbn zeta in *. rewrite (Efull _ eq_refl). exact IH.
  - rewrite strcat_eq.
    destruct (Nat.ltb_spec (String.length ((output ++ piece) ++ " "))
                           MAX_LINE) as [L2|L2].
    + specialize (IH _ L2). unfold tokens_outcome in IH.
      fold tbl in IH. cbn zeta in *. rewrite (Efull _ eq_refl). exact IH.
    + cbn zeta. rewrite (Efull _ eq_refl), length_append. lia.
Qed.

(** One token of the loop, from any output. *)
Lemma append_tokens_cons (tok : string) (rest : list string)
      (output : string) (st : state) :
  (forall o st1, String.length o < MAX_LINE ->
                 tokens_outcome rest o st1 (append_tokens rest o st1)) ->
  tokens_outcome (tok :: rest) output st
                 (append_tokens (tok :: rest) output st).
Proof.
  intro IH. cbn [append_tokens]. unfold bind at 1. rewrite token_text_eq.
  destruct (is_identifier tok) eqn:Eid.
  - destruct (overflows [tok] (vars st)) eqn:Eo.
    + unfold tokens_outcome, identifiers. cbn [filter]. rewrite Eid.
      fold (identifiers rest). rewrite overflows_cons, Eo. now split.
    + apply append_tokens_step.
      * unfold identifiers. cbn [filter]. now rewrite Eid.
      * unfold identifiers. cbn [filter]. rewrite Eid.
        fold (identifiers rest). rewrite overflows_cons, Eo. reflexivity.
      * cbn [vars]. rewrite (render_identifier _ tok Eid).
        now rewrite slot_of_register_all by apply register_known.
      * reflexivity.
      * intros o Ho. now apply IH.
  - apply append_tokens_step.
    + unfold identifiers. cbn [filter]. now rewrite Eid.
    + unfold identifiers. cbn [filter]. now rewrite Eid.
    + now apply render_other.
    + reflexivity.
    + intros o Ho. now apply IH.
Qed.

(** The token loop, whatever the tokens: it leaves the rendered tokens,
    single-spaced, after [output] and the identifiers registered in order,
    unless the table overflows first or the text does not fit the array. *)
Lemma append_tokens_outcome (toks : list string) (output : string)
      (st : state) :
  String.length output < MAX_LINE ->
  tokens_outcome toks output st (append_tokens toks output st).
Proof.
  revert output st. induction toks as [|tok rest IH]; intros output st L.
  - unfold tokens_outcome, render_expr. cbn. rewrite append_nil_r.
    repeat split; [exact L | now destruct st].
  - apply append_tokens_cons. intros o st1 Ho. now apply IH.
Qed.

Lemma append_tokens_outcome_cons (tok : string) (rest : list string)
      (output : string) (st : state) :
  tokens_outcome (tok :: rest) output st
                 (append_tokens (tok :: rest) output st).
Proof.
  apply append_tokens_cons. intros o st1 Ho. now apply append_tokens_outcome.
Qed.

Lemma printf_open_fits : String.length printf_open < MAX_LINE.
Proof. apply Nat.ltb_lt. vm_compute. reflexivity. Qed.

Lemma finish_line (ovf : bool) (tbl : list variable) (text closing : string)
      (ols : list string) (st : state) :
  output_lines st = ols ->
  ovf = false ->
  statement_outcome ovf tbl (text ++ closing) st
    ((out <- strcat text closing ;; add_output_line out) (mkState tbl ols)).
Proof.
  intros <- ->. unfold bind. rewrite strcat_eq.
  destruct (Nat.ltb_spec (String.length (text ++ closing)) MAX_LINE)
    as [L|L]; [|exact L].
  unfold add_output_line, output_count. cbn [vars output_lines].
  destruct (Nat.leb_spec MAX_LINES (length (output_lines st))) as [F|F].
  - right. unfold output_count. auto.
  - unfold statement_outcome, output_count. auto.
Qed.

(** A [print] with arguments. *)
Lemma compile_print_outcome (args : list string) (st : state) :
  args <> [] ->
  statement_outcome (overflows (identifiers args) (vars st))
    (register_all (identifiers args) (vars st))
    (print_line (register_all (identifiers args) (vars st)) args) st
    (compile_tokens ("print" :: args) st).
Proof.
  intro Hne. destruct args as [|a args]; [congruence|]. clear Hne.
  unfold compile_tokens.
  cbn [String.eqb Ascii.eqb Bool.eqb length Nat.ltb Nat.leb skipn].
  unfold bind at 1.
  pose proof (append_tokens_outcome (a :: args) printf_open st
                printf_open_fits) as H.
  unfold tokens_outcome in H. cbn zeta in H.
  unfold print_line. rewrite <- append_assoc.
  destruct (append_tokens (a :: args) printf_open st) as [[o st1]|msg|].
  - destruct H as (Ho & _ & -> & ->). rewrite Ho.
    now apply finish_line.
  - destruct H as [Ho ->]. left. now split.
  - unfold statement_outcome. rewrite length_append. lia.
Qed.

Lemma compile_input_eq (rest : list string) (st : state) :
  compile_tokens ("input" :: rest) st =
  match rest with
  | [target] =>
      if is_identifier target then
        if overflows [target] (vars st) then Fatal "Too many variables"
        else let tbl := register (vars st) target in
             emitted tbl (scanf_line (slot_of target (names tbl))) st
      else Fatal "input needs a variable name"
  | _ => Fatal "input needs one variable"
  end.
Proof.
  destruct rest as [|target [|extra rest]]; [reflexivity| |reflexivity].
  unfold compile_tokens.
  cbn [String.eqb Ascii.eqb Bool.eqb length Nat.eqb negb nth].
  destruct (is_identifier target); [|reflexivity].
  cbn [negb]. unfold bind. rewrite find_or_add_var_overflows.
  destruct (overflows [target] (vars st)); reflexivity.
Qed.

(** An assignment. *)
Lemma compile_assign_outcome (lhs : string) (rhs : list string) (st : state) :
  lhs <> "print" -> lhs <> "input" -> rhs <> [] ->
  is_identifier lhs = true ->
  statement_outcome (overflows (lhs :: identifiers rhs) (vars st))
    (register_all (lhs :: identifiers rhs) (vars st))
    (assign_line (register_all (lhs :: identifiers rhs) (vars st)) lhs rhs)
    st
    (compile_tokens (lhs :: "=" :: rhs) st).
Proof.
  intros Hp Hi Hr Eid. destruct rhs as [|r rhs]; [congruence|]. clear Hr.
  apply String.eqb_neq in Hp, Hi.
  unfold compile_tokens. rewrite Hp, Hi.
  cbn [length Nat.leb nth andb String.eqb Ascii.eqb Bool.eqb skipn].
  rewrite Eid. cbn [negb]. unfold bind at 1.
  rewrite find_or_add_var_overflows, overflows_cons.
  cbn [register_all fold_left].
  fold (register_all (identifiers (r :: rhs)) (register (vars st) lhs)).
  destruct (overflows [lhs] (vars st)); [left; now split|].
  cbn [orb]. unfold bind at 1.
  pose proof (append_tokens_outcome_cons r rhs
                (assign_open (slot_of lhs (names (register (vars st) lhs))))
                (mkState (register (vars st) lhs) (output_lines st))) as H.
  unfold tokens_outcome in H. cbn zeta in H. cbn [vars output_lines] in H.
  unfold assign_line.
  rewrite (slot_of_register_all lhs (identifiers (r :: rhs))
             (register (vars st) lhs) (register_known _ _)).
  rewrite <- append_assoc.
  destruct (append_tokens (r :: rhs) _ _) as [[o st1]|msg|].
  - destruct H as (Ho & _ & -> & ->). rewrite Ho.
    now apply finish_line.
  - destruct H as [Ho ->]. left. now split.
  - unfold statement_outcome. rewrite length_append. lia.
Qed.

Lemma compile_assign_bad (lhs : string) (rhs : list string) (st : state) :
  lhs <> "print" -> lhs <> "input" -> rhs <> [] ->
  is_identifier lhs = false ->
  compile_tokens (lhs :: "=" :: rhs) st = Fatal "Left side must be a variable".
Proof.
  intros Hp Hi Hr Eid. destruct rhs as [|r rhs]; [congruence|].
  apply String.eqb_neq in Hp, Hi.
  unfold compile_tokens. rewrite Hp, Hi.
  cbn [length Nat.leb nth andb String.eqb Ascii.eqb Bool.eqb].
  now rewrite Eid.
Qed.

(** A line that fits the array is written unless the table overflows. *)
Lemma statement_outcome_fits (ovf : bool) (tbl : list variable)
      (line : string) (st : state) (r : result (unit * state)) :
  statement_outcome ovf tbl line st r ->
  String.length line < MAX_LINE ->
  r = if ovf then Fatal "Too many variables" else emitted tbl line st.
Proof.
  unfold statement_outcome, emitted. intros H L.
  destruct r as [[[] st']|msg|].
  - destruct H as (-> & _ & Hl & ->).
    destruct (Nat.leb_spec MAX_LINES (output_count st)); [lia | reflexivity].
  - destruct H as [(-> & ->)|(-> & _ & Hl & ->)]; [reflexivity|].
    destruct (Nat.leb_spec MAX_LINES (output_count st)); [reflexivity | lia].
  - lia.
Qed.

Lemma compile_print_eq (args : list string) (st : state) :
  String.length (print_line (register_all (identifiers args) (vars st)) args)
  < MAX_LINE ->
  compile_tokens ("print" :: args) st =
  match args with
  | [] => Fatal "print needs an argument"
  | _ :: _ =>
      if overflows (identifiers args) (vars st)
      then Fatal "Too many variables"
      else let tbl := register_all (identifiers args) (vars st) in
           emitted tbl (print_line tbl args) st
  end.
Proof.
  intro L. destruct args as [|a args]; [reflexivity|].
  apply statement_outcome_fits; [|exact L].
  apply compile_print_outcome. discriminate.
Qed.

Lemma compile_assign_eq (lhs : string) (rhs : list string) (st : state) :
  lhs <> "print" -> lhs <> "input" -> rhs <> [] ->
  String.length
    (assign_line (register_all (lhs :: identifiers rhs) (vars st)) lhs rhs)
  < MAX_LINE ->
  compile_tokens (lhs :: "=" :: rhs) st =
  if is_identifier lhs then
    if overflows (lhs :: identifiers rhs) (vars st)
    then Fatal "Too many variables"
    else let tbl := register_all (lhs :: identifiers rhs) (vars st) in
         emitted tbl (assign_line tbl lhs rhs) st
  else Fatal "Left side must be a variable".
Proof.
  intros Hp Hi Hr L. destruct (is_identifier lhs) eqn:Eid.
  - apply statement_outcome_fits; [|exact L].
    now apply compile_assign_outcome.
  - now apply compile_assign_bad.
Qed.

Lemma compile_invalid_eq (tok0 : string) (rest : list string) (st : state) :
  tok0 <> "print" -> tok0 <> "input" ->
  (forall rhs, rhs <> [] -> rest <> "=" :: rhs) ->
  compile_tokens (tok0 :: rest) st = Fatal "Invalid statement".
Proof.
  intros Hp Hi Hshape. apply String.eqb_neq in Hp, Hi.
  unfold compile_tokens. rewrite Hp, Hi.
  destruct rest as [|t1 [|t2 rest]]; try reflexivity.
  cbn [length Nat.leb nth andb].
  destruct (String.eqb_spec t1 "=") as [->|Hne]; [|reflexivity].
  exfalso. now apply (Hshape (t2 :: rest)).
Qed.

Lemma emitted_room (tbl : list variable) (line : string) (st : state) :
  output_count st < MAX_LINES ->
  emitted tbl line st = Ok (tt, mkState tbl (output_lines st ++ [line])%list).
Proof.
  intro H. unfold emitted.
  destruct (Nat.leb_spec MAX_LINES (output_count st)); [lia | reflexivity].
Qed.

Lemma emitted_inv (tbl : list variable) (line : string) (st st' : state) :
  emitted tbl line st = Ok (tt, st') ->
  st' = mkState tbl (output_lines st ++ [line])%list.
Proof.
  unfold emitted. destruct (MAX_LINES <=? output_count st)%nat; congruence.
Qed.

(** ** Identifiers *)

Lemma all_word_chars_spec (r : string) :
  all_word_chars r = true <->
  forall k d, String.get k r = Some d -> isalnum d = true \/ d = underscore.
Proof.
  induction r as [|c r IH]; simpl.
  - split; [intros _ k d H; destruct k; discriminate | reflexivity].
  - unfold is_word_char at 1.
    destruct (isalnum c) eqn:Ea; simpl.
    + rewrite IH. split.
      * intros H [|k] d Hg; [injection Hg as <-; now left | eauto].
      * intros H k d Hg. apply (H (S k)). exact Hg.
    + destruct (Ascii.eqb_spec c underscore) as [->|Hne].
      * rewrite IH. split.
        -- intros H [|k] d Hg; [injection Hg as <-; now right | eauto].
        -- intros H k d Hg. apply (H (S k)). exact Hg.
      * split; [discriminate|].
        intro H. destruct (H 0 c eq_refl); congruence.
Qed.

(** [is_identifier] decides the identifier syntax of the specification. *)
Lemma is_identifier_spec (s : string) :
  is_identifier s = true <-> spec_identifier s.
Proof.
  unfold spec_identifier. destruct s as [|c r]; simpl.
  - split; [discriminate | intros (c & r & H & _); discriminate].
  - destruct (isalpha c) eqn:Ea; simpl.
    + rewrite all_word_chars_spec. split.
      * intro H. exists c, r. repeat split; auto.
      * intros (c' & r' & E & _ & H). now injection E as <- <-.
    + destruct (Ascii.eqb_spec c underscore) as [->|Hne]; simpl.
      * rewrite all_word_chars_spec. split.
        -- intro H. exists underscore, r. repeat split; auto.
        -- intros (c' & r' & E & _ & H). now injection E as <- <-.
      * split; [discriminate|].
        intros (c' & r' & E & [H|H] & _); injection E as <- <-; congruence.
Qed.

Lemma is_identifier_not_spec (s : string) :
  is_identifier s = false <-> ~ spec_identifier s.
Proof.
  rewrite <- is_identifier_spec. destruct (is_identifier s); split;
    congruence.
Qed.

(** ** Order of first occurrence *)

Lemma known_names (nm : string) (vs : list variable) :
  known nm vs = existsb (String.eqb nm) (names vs).
Proof.
  induction vs as [|v vs IH]; simpl; [reflexivity|].
  now rewrite IH, String.eqb_sym.
Qed.

Lemma names_register_all (nms : list string) (vs : list variable) :
  names (register_all nms vs) =
  (names vs ++ distinct_from (names vs) nms)%list.
Proof.
  revert vs. induction nms as [|nm nms IH]; intro vs.
  - simpl. now rewrite app_nil_r.
  - cbn [register_all fold_left distinct_from].
    fold (register_all nms (register vs nm)).
    rewrite IH. rewrite <- known_names. unfold register.
    destruct (known nm vs); [reflexivity|].
    rewrite names_app. simpl. now rewrite <- app_assoc.
Qed.

Lemma existsb_eqb_In (x : string) (l : list string) :
  existsb (String.eqb x) l = true <-> In x l.
Proof.
  rewrite existsb_exists. split.
  - intros [y [H1 H2]]. apply String.eqb_eq in H2. now subst.
  - intro H. exists x. split; [assumption | apply String.eqb_refl].
Qed.

Lemma distinct_from_In (xs seen : list string) (x : string) :
  In x (distinct_from seen xs) <-> In x xs /\ ~ In x seen.
Proof.
  revert seen. induction xs as [|y xs IH]; intro seen; simpl; [tauto|].
  destruct (existsb (String.eqb y) seen) eqn:E.
  - apply existsb_eqb_In in E. rewrite IH. split; [tauto|].
    intros [[->|H] N]; tauto.
  - assert (N : ~ In y seen).
    { intro H. apply existsb_eqb_In in H. congruence. }
    simpl. rewrite IH, in_app_iff. simpl.
    destruct (string_dec y x) as [->|Hne]; [tauto|]. tauto.
Qed.

Lemma distinct_from_NoDup (xs seen : list string) :
  NoDup (distinct_from seen xs).
Proof.
  revert seen. induction xs as [|y xs IH]; intro seen; simpl;
    [constructor|].
  destruct (existsb (String.eqb y) seen); [apply IH|].
  constructor; [|apply IH].
  rewrite distinct_from_In, in_app_iff. simpl. tauto.
Qed.

Lemma distinct_from_app (xs ys seen : list string) :
  distinct_from seen (xs ++ ys) =
  (distinct_from seen xs
   ++ distinct_from (seen ++ distinct_from seen xs) ys)%list.
Proof.
  revert seen. induction xs as [|x xs IH]; intro seen; simpl.
  - now rewrite app_nil_r.
  - destruct (existsb (String.eqb x) seen); [apply IH|].
    rewrite IH. simpl. now rewrite <- app_assoc.
Qed.

(** The slot of a name is the number of distinct names before its first
    occurrence. *)
Lemma slot_of_distinct (pre post : list string) (nm : string) :
  ~ In nm pre ->
  slot_of nm (distinct (pre ++ nm :: post)) = length (distinct pre).
Proof.
  intro N. unfold distinct. rewrite distinct_from_app. simpl.
  assert (E : existsb (String.eqb nm) (distinct_from [] pre) = false).
  { destruct (existsb (String.eqb nm) (distinct_from [] pre)) eqn:E;
      [|reflexivity].
    apply existsb_eqb_In, distinct_from_In in E. tauto. }
  rewrite E. apply slot_of_fresh.
  rewrite distinct_from_In. tauto.
Qed.

Lemma register_all_In (nm : string) (nms : list string)
      (vs : list variable) :
  In nm nms -> In nm (names (register_all nms vs)).
Proof.
  intro H. rewrite names_register_all, in_app_iff, distinct_from_In.
  destruct (in_dec string_dec nm (names vs)); tauto.
Qed.

(** The substitution rule read with the identifier syntax of the
    specification. *)
Lemma render_rule (tbl : list variable) (tok : string) :
  (spec_identifier tok -> render tbl tok = "v" ++ fmt_d (slot_of tok (names tbl)))
  /\ (~ spec_identifier tok -> render tbl tok = tok).
Proof.
  split; intro H.
  - apply render_identifier. now apply is_identifier_spec.
  - apply render_other. now apply is_identifier_not_spec.
Qed.

Lemma identifiers_In (tok : string) (toks : list string) :
  In tok toks -> spec_identifier tok -> In tok (identifiers toks).
Proof.
  intros H S. apply filter_In. split; [assumption|].
  now apply is_identifier_spec.
Qed.

Lemma room_no_overflow (nms : list string) (st : state) :
  length (register_all nms (vars st)) <= MAX_VARS ->
  overflows nms (vars st) = false.
Proof. apply overflows_room. Qed.

(** ** The symbol table contract *)

(** C2. Resolving a name that is in the table returns its slot and leaves
    the state alone; resolving a new name with room left returns the current
    variable count and appends the name; resolving a new name with
    [MAX_VARS] = 256 variables registered is the fatal error "Too many
    variables"; and a second resolution of a resolved name returns the same
    slot. *)
Theorem find_or_add_var_contract (nm : string) (st : state) :
  MAX_VARS = 256 /\
  (In nm (names (vars st)) ->
   find_or_add_var nm st = Ok (slot_of nm (names (vars st)), st) /\
   nth_error (names (vars st)) (slot_of nm (names (vars st))) = Some nm) /\
  (~ In nm (names (vars st)) -> var_count st < MAX_VARS ->
   find_or_add_var nm st =
   Ok (var_count st,
       mkState (vars st ++ [mkVariable nm 1%Z])%list (output_lines st))) /\
  (~ In nm (names (vars st)) -> MAX_VARS <= var_count st ->
   find_or_add_var nm st = Fatal "Too many variables") /\
  (forall slot st', find_or_add_var nm st = Ok (slot, st') ->
   find_or_add_var nm st' = Ok (slot, st')).
Proof.
  split; [reflexivity|].
  assert (Hnew : ~ In nm (names (vars st)) -> known nm (vars st) = false).
  { intro N. destruct (known nm (vars st)) eqn:K; [|reflexivity].
    apply known_In in K. contradiction. }
  repeat split.
  - rewrite find_or_add_var_eq.
    apply known_In in H. now rewrite H.
  - now apply slot_of_lt.
  - intros N R. rewrite find_or_add_var_eq, (Hnew N).
    destruct (Nat.leb_spec MAX_VARS (var_count st)); [lia | reflexivity].
  - intros N R. rewrite find_or_add_var_eq, (Hnew N).
    destruct (Nat.leb_spec MAX_VARS (var_count st)); [reflexivity | lia].
  - intros slot st'. rewrite !find_or_add_var_eq.
    destruct (known nm (vars st)) eqn:K.
    + intro E. injection E as <- <-. now rewrite K.
    + destruct (MAX_VARS <=? var_count st)%nat; [discriminate|].
      intro E. injection E as <- <-. cbn [vars].
      rewrite known_app. simpl. rewrite String.eqb_refl, orb_true_r.
      rewrite names_app. simpl. rewrite slot_of_fresh.
      * unfold var_count, names. now rewrite length_map.
      * intro Hin. apply known_In in Hin. congruence.
Qed.

Lemma find_or_add_var_contract_witness :
  find_or_add_var "y" (mkState [mkVariable "x" 1%Z; mkVariable "y" 1%Z] [])
  = Ok (1, mkState [mkVariable "x" 1%Z; mkVariable "y" 1%Z] [])
  /\ find_or_add_var "z" (mkState [mkVariable "x" 1%Z; mkVariable "y" 1%Z] [])
     = Ok (2, mkState [mkVariable "x" 1%Z; mkVariable "y" 1%Z;
                       mkVariable "z" 1%Z] [])
  /\ find_or_add_var "z" (mkState full_table []) = Fatal "Too many variables"
  /\ find_or_add_var "v7" (mkState full_table [])
     = Ok (7, mkState full_table []).
Proof.
  pose (st := mkState [mkVariable "x" 1%Z; mkVariable "y" 1%Z] []).
  split; [|split; [|split]].
  - destruct (find_or_add_var_contract "y" st) as (_ & H & _).
    destruct H as [H _]; [simpl; auto | exact H].
  - destruct (find_or_add_var_contract "z" st) as (_ & _ & H & _).
    apply H.
    + intro K. apply known_In in K. vm_compute in K. discriminate.
    + apply Nat.ltb_lt. vm_compute. reflexivity.
  - destruct (find_or_add_var_contract "z" (mkState full_table []))
      as (_ & _ & _ & H & _).
    apply H.
    + intro K. apply known_In in K. vm_compute in K. discriminate.
    + apply Nat.leb_le. vm_compute. reflexivity.
  - destruct (find_or_add_var_contract "v7" (mkState full_table []))
      as (_ & H & _).
    destruct H as [H _]; [|exact H].
    apply known_In. vm_compute. reflexivity.
Defined.

(** ** Statements *)

Ltac by_evaluation :=
  first [apply Nat.leb_le | apply Nat.ltb_lt]; vm_compute; reflexivity.

(** C5. A token sequence that is [print] alone is the fatal error "print
    needs an argument".  With arguments the statement registers the
    identifiers among the arguments and adds one line: the text
    [    printf("%lld\n", ], every argument that is an identifier (a letter
    or underscore, then letters, digits and underscores) replaced by
    [v<slot>], every other argument unchanged, joined by single spaces, and
    the closing [);].  This is so whenever the table has room for the new
    names, the line store has room for a line and the line has fewer than
    [MAX_LINE] characters, the size of the array it is built in.  The only
    fatal errors of a [print] with arguments are those of the two limits. *)
Theorem print_statement (args : list string) (st : state) :
  compile_tokens ["print"] st = Fatal "print needs an argument" /\
  (args <> [] ->
   let tbl := register_all (identifiers args) (vars st) in
   let line := "    printf(" ++ String dquote "%lld\n" ++ String dquote ", "
               ++ String.concat " " (map (render tbl) args) ++ ");" in
   length tbl <= MAX_VARS ->
   output_count st < MAX_LINES ->
   String.length line < MAX_LINE ->
   compile_tokens ("print" :: args) st =
   Ok (tt, mkState tbl (output_lines st ++ [line])%list) /\
   forall tok,
     (spec_identifier tok -> In tok args ->
      In tok (names tbl) /\
      render tbl tok = "v" ++ fmt_d (slot_of tok (names tbl))) /\
     (~ spec_identifier tok -> render tbl tok = tok)) /\
  (args <> [] ->
   forall msg, compile_tokens ("print" :: args) st = Fatal msg ->
   msg = "Too many variables" \/ msg = "Too many lines").
Proof.
  split; [reflexivity|]. split.
  - intros Hne tbl line Hroom Hlines Hfit. split.
    + rewrite compile_print_eq by exact Hfit.
      destruct args as [|a args]; [congruence|].
      rewrite room_no_overflow by assumption. cbn zeta.
      now rewrite emitted_room.
    + intro tok. split.
      * intros S Hin. split; [|now apply render_rule].
        apply register_all_In. now apply identifiers_In.
      * apply render_rule.
  - intros Hne msg E.
    pose proof (compile_print_outcome args st Hne) as H. rewrite E in H.
    destruct H as [[_ ->]|(_ & _ & _ & ->)]; auto.
Qed.

Lemma print_statement_witness :
  compile_tokens ["print"; "a"; "+"; "1"; "*"; "a"] initial_state =
  Ok (tt, mkState [mkVariable "a" 1%Z]
            ["    printf(" ++ String dquote "%lld\n" ++ String dquote ", "
             ++ "v0 + 1 * v0" ++ ");"]).
Proof.
  destruct (print_statement ["a"; "+"; "1"; "*"; "a"] initial_state)
    as (_ & H & _).
  destruct H as [H _]; [discriminate | by_evaluation .. | exact H].
Defined.

(** C6. For a token sequence [lhs = rhs...] with at least three tokens
    whose first token is neither [print] nor [input]: when [lhs] is not an
    identifier the statement is the fatal error "Left side must be a
    variable"; otherwise [lhs] is resolved first, then the identifiers of
    the right-hand side in order, and one line is added: [    v<slot of
    lhs> = ], the right-hand tokens in their original order, identifiers
    replaced by [v<slot>] and the others unchanged, joined by single
    spaces, and [;].  This is so whenever the table and the line store
    have room and the line has fewer than [MAX_LINE] characters.  The only
    other fatal errors are those of the two limits. *)
Theorem assignment_statement (lhs : string) (rhs : list string) (st : state) :
  lhs <> "print" -> lhs <> "input" -> rhs <> [] ->
  (~ spec_identifier lhs ->
   compile_tokens (lhs :: "=" :: rhs) st =
   Fatal "Left side must be a variable") /\
  (spec_identifier lhs ->
   let tbl := register_all (lhs :: identifiers rhs) (vars st) in
   let line := ("    v" ++ fmt_d (slot_of lhs (names tbl)) ++ " = ")
               ++ String.concat " " (map (render tbl) rhs) ++ ";" in
   length tbl <= MAX_VARS ->
   output_count st < MAX_LINES ->
   String.length line < MAX_LINE ->
   compile_tokens (lhs :: "=" :: rhs) st =
   Ok (tt, mkState tbl (output_lines st ++ [line])%list) /\
   In lhs (names tbl) /\
   forall tok,
     (spec_identifier tok -> In tok rhs ->
      In tok (names tbl) /\
      render tbl tok = "v" ++ fmt_d (slot_of tok (names tbl))) /\
     (~ spec_identifier tok -> render tbl tok = tok)) /\
  (spec_identifier lhs ->
   forall msg, compile_tokens (lhs :: "=" :: rhs) st = Fatal msg ->
   msg = "Too many variables" \/ msg = "Too many lines").
Proof.
  intros Hp Hi Hne. split; [|split].
  - intro N. apply is_identifier_not_spec in N.
    now apply compile_assign_bad.
  - intros S tbl line Hroom Hlines Hfit. apply is_identifier_spec in S.
    rewrite (compile_assign_eq lhs rhs st Hp Hi Hne Hfit), S.
    rewrite room_no_overflow by assumption. cbn zeta.
    rewrite emitted_room by assumption. split; [reflexivity|]. split.
    + apply register_all_In. now left.
    + intro tok. split; [|apply render_rule].
      intros St Hin. split; [|now apply render_rule].
      apply register_all_In. right. now apply identifiers_In.
  - intros S msg E. apply is_identifier_spec in S.
    pose proof (compile_assign_outcome lhs rhs st Hp Hi Hne S) as H.
    rewrite E in H. destruct H as [[_ ->]|(_ & _ & _ & ->)]; auto.
Qed.

Lemma assignment_statement_witness :
  compile_tokens ["result"; "="; "x"; "+"; "y"]
    (mkState [mkVariable "x" 1%Z; mkVariable "y" 1%Z] []) =
  Ok (tt, mkState [mkVariable "x" 1%Z; mkVariable "y" 1%Z;
                   mkVariable "result" 1%Z]
            ["    v2 = v0 + v1;"])
  /\ compile_tokens ["5"; "="; "x"] initial_state =
     Fatal "Left side must be a variable".
Proof.
  split.
  - destruct (assignment_statement "result" ["x"; "+"; "y"]
                (mkState [mkVariable "x" 1%Z; mkVariable "y" 1%Z] []))
      as (_ & H & _); try discriminate.
    destruct H as [H _];
      [apply is_identifier_spec; reflexivity | by_evaluation .. | exact H].
  - destruct (assignment_statement "5" ["x"] initial_state)
      as (H & _); try discriminate.
    apply H. apply is_identifier_not_spec. reflexivity.
Defined.

(** C7. For a token sequence whose first token is [input]: a token count
    other than two is the fatal error "input needs one variable"; a second
    token that is not an identifier is the fatal error "input needs a
    variable name"; otherwise, unless a limit is hit, the identifier is
    resolved and the single line [    scanf("%lld", &v<slot>);], which
    reads a 64-bit integer into the variable of that slot, is added. *)
Theorem input_statement (rest : list string) (st : state) :
  (length ("input" :: rest) <> 2 ->
   compile_tokens ("input" :: rest) st = Fatal "input needs one variable") /\
  (forall target, rest = [target] -> ~ spec_identifier target ->
   compile_tokens ("input" :: rest) st = Fatal "input needs a variable name") /\
  (forall target, rest = [target] -> spec_identifier target ->
   length (register (vars st) target) <= MAX_VARS ->
   output_count st < MAX_LINES ->
   let tbl := register (vars st) target in
   compile_tokens ("input" :: rest) st =
   Ok (tt, mkState tbl
             (output_lines st ++
              [("    scanf(" ++ String dquote "%lld" ++ String dquote ", &v"
                ++ fmt_d (slot_of target (names tbl)) ++ ");")%string])%list)
   /\ In target (names tbl)).
Proof.
  rewrite compile_input_eq. split; [|split].
  - destruct rest as [|t [|u rest]]; simpl; intro H;
      [reflexivity | lia | reflexivity].
  - intros target -> N. apply is_identifier_not_spec in N. now rewrite N.
  - intros target -> S Hroom Hlines tbl. apply is_identifier_spec in S.
    rewrite S. rewrite (room_no_overflow [target]) by assumption.
    cbn zeta. rewrite emitted_room by assumption.
    split; [reflexivity|].
    apply known_In, register_known.
Qed.

Lemma input_statement_witness :
  compile_tokens ["input"] initial_state = Fatal "input needs one variable"
  /\ compile_tokens ["input"; "a"; "b"] initial_state =
     Fatal "input needs one variable"
  /\ compile_tokens ["input"; "7"] initial_state =
     Fatal "input needs a variable name"
  /\ compile_tokens ["input"; "y"] initial_state =
     Ok (tt, mkState [mkVariable "y" 1%Z]
               ["    scanf(" ++ String dquote "%lld" ++ String dquote ", &v0);"]).
Proof.
  split; [|split; [|split]].
  - destruct (input_statement [] initial_state) as (H & _).
    apply H. simpl. lia.
  - destruct (input_statement ["a"; "b"] initial_state) as (H & _).
    apply H. simpl. lia.
  - destruct (input_statement ["7"] initial_state) as (_ & H & _).
    apply (H "7"); [reflexivity|].
    apply is_identifier_not_spec. reflexivity.
  - destruct (input_statement ["y"] initial_state) as (_ & _ & H).
    destruct (H "y") as [E _];
      [reflexivity | apply is_identifier_spec; reflexivity
       | by_evaluation .. | exact E].
Defined.

(** C8. The first token decides before the assignment shape is looked at:
    [print = ...] is compiled as a [print] statement (the variable [print]
    is not registered and the line is a [printf] of the tokens after
    [print], the [=] among them), [input = ...] is one of the two [input]
    errors, and a sequence that starts with neither word and is not
    [<token> = <at least one token>] is the fatal error "Invalid
    statement"; so is [foo bar].  The [print] line is written whenever the
    two stores have room and it has fewer than [MAX_LINE] characters. *)
Theorem classification_order (rest : list string) (st : state) :
  (let tbl := register_all (identifiers rest) (vars st) in
   let line := "    printf(" ++ String dquote "%lld\n" ++ String dquote ", "
               ++ String.concat " " ("=" :: map (render tbl) rest) ++ ");" in
   length tbl <= MAX_VARS ->
   output_count st < MAX_LINES ->
   String.length line < MAX_LINE ->
   compile_tokens ("print" :: "=" :: rest) st =
   Ok (tt, mkState tbl (output_lines st ++ [line])%list)) /\
  (compile_tokens ("input" :: "=" :: rest) st =
   Fatal (match rest with
          | [] => "input needs a variable name"
          | _ :: _ => "input needs one variable"
          end)) /\
  (forall tok0, tok0 <> "print" -> tok0 <> "input" ->
   (forall rhs, rhs <> [] -> rest <> "=" :: rhs) ->
   compile_tokens (tok0 :: rest) st = Fatal "Invalid statement") /\
  compile_line "foo bar" st = Fatal "Invalid statement".
Proof.
  split; [|split; [|split]].
  - intros tbl line Hroom Hlines Hfit.
    rewrite compile_print_eq by exact Hfit.
    change (identifiers ("=" :: rest)) with (identifiers rest).
    rewrite room_no_overflow by assumption. cbn zeta.
    now rewrite emitted_room.
  - rewrite compile_input_eq. destruct rest; reflexivity.
  - intros tok0. apply compile_invalid_eq.
  - reflexivity.
Qed.

Lemma classification_order_witness :
  compile_line "print = 5" initial_state =
  Ok (tt, mkState []
            ["    printf(" ++ String dquote "%lld\n" ++ String dquote ", "
             ++ "= 5" ++ ");"])
  /\ compile_line "x y z" initial_state = Fatal "Invalid statement".
Proof.
  split.
  - destruct (classification_order ["5"] initial_state) as (H & _).
    apply H; by_evaluation.
  - destruct (classification_order ["y"; "z"] initial_state)
      as (_ & _ & H & _).
    apply (H "x"); discriminate.
Defined.

(** C10. [print] and [input] are identifiers for [is_identifier], and as
    an argument of [print] or on the right of an assignment either word is
    registered in the table and rendered as [v<slot>] like any other
    variable, the line being written whenever the two stores have room and
    it has fewer than [MAX_LINE] characters; [x = print] compiles to
    [v0 = v1;]. *)
Theorem keywords_not_reserved (kw : string) (st : state) :
  kw = "print" \/ kw = "input" ->
  is_identifier kw = true /\
  (forall args, In kw args ->
   let tbl := register_all (identifiers args) (vars st) in
   let line := "    printf(" ++ String dquote "%lld\n" ++ String dquote ", "
               ++ String.concat " " (map (render tbl) args) ++ ");" in
   length tbl <= MAX_VARS ->
   output_count st < MAX_LINES ->
   String.length line < MAX_LINE ->
   compile_tokens ("print" :: args) st =
   Ok (tt, mkState tbl (output_lines st ++ [line])%list) /\
   In kw (names tbl) /\
   render tbl kw = "v" ++ fmt_d (slot_of kw (names tbl))) /\
  (forall lhs rhs, lhs <> "print" -> lhs <> "input" ->
   is_identifier lhs = true -> In kw rhs ->
   let tbl := register_all (lhs :: identifiers rhs) (vars st) in
   let line := ("    v" ++ fmt_d (slot_of lhs (names tbl)) ++ " = ")
               ++ String.concat " " (map (render tbl) rhs) ++ ";" in
   length tbl <= MAX_VARS ->
   output_count st < MAX_LINES ->
   String.length line < MAX_LINE ->
   compile_tokens (lhs :: "=" :: rhs) st =
   Ok (tt, mkState tbl (output_lines st ++ [line])%list) /\
   In kw (names tbl) /\
   render tbl kw = "v" ++ fmt_d (slot_of kw (names tbl))) /\
  compile_line "x = print" initial_state =
  Ok (tt, mkState [mkVariable "x" 1%Z; mkVariable "print" 1%Z]
            ["    v0 = v1;"]).
Proof.
  intro Hkw.
  assert (Eid : is_identifier kw = true) by (destruct Hkw; subst; reflexivity).
  split; [assumption|]. split; [|split; [|reflexivity]].
  - intros args Hin tbl line Hroom Hlines Hfit.
    rewrite compile_print_eq by exact Hfit.
    destruct args as [|a args]; [contradiction|].
    rewrite room_no_overflow by assumption. cbn zeta.
    rewrite emitted_room by assumption. split; [reflexivity|]. split.
    + apply register_all_In, filter_In. now split.
    + now apply render_identifier.
  - intros lhs rhs Hp Hi Hl Hin tbl line Hroom Hlines Hfit.
    assert (Hne : rhs <> []) by (intros ->; contradiction).
    rewrite (compile_assign_eq lhs rhs st Hp Hi Hne Hfit), Hl.
    rewrite room_no_overflow by assumption. cbn zeta.
    rewrite emitted_room by assumption. split; [reflexivity|]. split.
    + apply register_all_In. right. apply filter_In. now split.
    + now apply render_identifier.
Qed.

Lemma keywords_not_reserved_witness :
  compile_tokens ["print"; "input"; "+"; "print"] initial_state =
  Ok (tt, mkState [mkVariable "input" 1%Z; mkVariable "print" 1%Z]
            ["    printf(" ++ String dquote "%lld\n" ++ String dquote ", "
             ++ "v0 + v1" ++ ");"]).
Proof.
  destruct (keywords_not_reserved "input" initial_state) as (_ & H & _);
    [now right|].
  destruct (H ["input"; "+"; "print"]) as [E _];
    [simpl; auto | by_evaluation .. | exact E].
Defined.

(** ** Whole programs *)

Lemma emitted_inv_fields (tbl : list variable) (line : string)
      (st st' : state) :
  emitted tbl line st = Ok (tt, st') ->
  vars st' = tbl /\ output_lines st' = (output_lines st ++ [line])%list.
Proof. intro E. apply emitted_inv in E. subst st'. now split. Qed.

Lemma statement_outcome_inv (ovf : bool) (tbl : list variable)
      (line : string) (st st' : state) :
  statement_outcome ovf tbl line st (Ok (tt, st')) ->
  vars st' = tbl /\ output_lines st' = (output_lines st ++ [line])%list.
Proof. intros (_ & _ & _ & ->). now split. Qed.

Lemma compile_tokens_inv (tokens : list string) (st st' : state) :
  tokens <> [] ->
  compile_tokens tokens st = Ok (tt, st') ->
  vars st' = register_all (statement_refs tokens) (vars st) /\
  output_lines st' =
  (output_lines st
   ++ [statement_line (register_all (statement_refs tokens) (vars st))
         tokens])%list.
Proof.
  intros Hne.
  destruct tokens as [|tok0 rest]; [congruence|]. clear Hne.
  destruct (String.eqb_spec tok0 "print") as [->|Hp].
  { destruct rest as [|a rest]; [discriminate|].
    intro E.
    pose proof (compile_print_outcome (a :: rest) st) as H.
    rewrite E in H.
    exact (statement_outcome_inv _ _ _ _ _ (H ltac:(discriminate))). }
  destruct (String.eqb_spec tok0 "input") as [->|Hi].
  { rewrite compile_input_eq.
    destruct rest as [|t [|u rest]]; try discriminate.
    destruct (is_identifier t); [|discriminate].
    destruct (overflows _ _); [discriminate|]. cbn zeta.
    apply emitted_inv_fields. }
  assert (Erefs : statement_refs (tok0 :: rest)
                  = tok0 :: identifiers (skipn 1 rest)).
  { unfold statement_refs.
    apply String.eqb_neq in Hp, Hi. now rewrite Hp, Hi. }
  assert (Eline : forall tbl, statement_line tbl (tok0 :: rest)
                  = assign_line tbl tok0 (skipn 1 rest)).
  { intro tbl. unfold statement_line.
    apply String.eqb_neq in Hp, Hi. now rewrite Hp, Hi. }
  rewrite Erefs, Eline.
  assert (Hbad : (forall rhs, rhs <> [] -> rest <> "=" :: rhs) ->
                 compile_tokens (tok0 :: rest) st <> Ok (tt, st')).
  { intro H. now rewrite compile_invalid_eq. }
  destruct rest as [|t1 [|t2 rest]].
  - intro E. exfalso. revert E. apply Hbad. discriminate.
  - intro E. exfalso. revert E. apply Hbad.
    intros rhs Hr E. injection E as _ <-. congruence.
  - destruct (String.eqb_spec t1 "=") as [->|Hne].
    + cbn [skipn]. destruct (is_identifier tok0) eqn:Eid.
      * intro E.
        pose proof (compile_assign_outcome tok0 (t2 :: rest) st Hp Hi) as H.
        rewrite E in H.
        exact (statement_outcome_inv _ _ _ _ _ (H ltac:(discriminate) Eid)).
      * rewrite compile_assign_bad by (assumption || discriminate).
        discriminate.
    + intro E. exfalso. revert E. apply Hbad.
      intros rhs Hr E. injection E as E _. congruence.
Qed.

Lemma skip_spaces_head (s : string) (c : ascii) (r : string) :
  skip_spaces s = String c r -> isspace c = false.
Proof.
  induction s as [|d s IH]; simpl; [discriminate|].
  destruct (isspace d) eqn:E; [assumption|].
  intro H. injection H as <- <-. assumption.
Qed.

Lemma skip_spaces_fixed (c : ascii) (r : string) :
  isspace c = false -> skip_spaces (String c r) = String c r.
Proof. simpl. now intros ->. Qed.

Lemma tokenize_from_nonempty (room : nat) (c : ascii) (r : string) :
  isspace c = false -> tokenize_from (S room) (String c r) <> [].
Proof.
  intro H. cbn [tokenize_from].
  rewrite (skip_spaces_fixed c r H).
  destruct (is_word_char c); [|discriminate].
  destruct (take_word TOKEN_CHARS (String c r)). discriminate.
Qed.

(** A line that starts with a character that is not a space has a token. *)
Lemma tokenize_nonempty (c : ascii) (r : string) :
  isspace c = false -> tokenize (String c r) <> [].
Proof. exact (tokenize_from_nonempty 99 c r). Qed.

Lemma statement_of_tokens (line p : string) :
  statement_of line = Some p ->
  tokenize p <> [] /\ compile_line p = compile_tokens (tokenize p).
Proof.
  unfold statement_of.
  destruct (skip_spaces (chomp line)) as [|c r] eqn:E; [discriminate|].
  destruct (Ascii.eqb c hash); [discriminate|].
  intro H. injection H as <-. split; [|reflexivity].
  apply tokenize_nonempty. now apply skip_spaces_head in E.
Qed.

Lemma register_all_app (xs ys : list string) (vs : list variable) :
  register_all (xs ++ ys) vs = register_all ys (register_all xs vs).
Proof. apply fold_left_app. Qed.

Lemma app_snoc_app {A : Type} (l : list A) (x : A) (r : list A) :
  ((l ++ [x]) ++ r = l ++ x :: r)%list.
Proof. now rewrite <- List.app_assoc. Qed.

(** What the reading loop leaves when it ends without a fatal error. *)
Lemma compile_file_inv (lines : list string) (st st' : state) :
  compile_file lines st = Ok (tt, st') ->
  vars st' = register_all (program_refs lines) (vars st) /\
  output_lines st' =
  (output_lines st ++ spec_body (statements lines) (vars st))%list.
Proof.
  revert st. induction lines as [|line rest IH]; intro st.
  - simpl. unfold ret. intro E. injection E as <-.
    now rewrite app_nil_r.
  - cbn [compile_file statements]. unfold program_refs in *.
    cbn [statements].
    destruct (statement_of line) as [p|] eqn:Es; [|apply IH].
    destruct (statement_of_tokens _ _ Es) as [Hne Ecl].
    unfold bind. rewrite Ecl.
    destruct (compile_tokens (tokenize p) st) as [[[] st1]|msg|] eqn:E1;
      [|discriminate|discriminate].
    destruct (compile_tokens_inv _ _ _ Hne E1) as [Ev1 El1].
    intro E2. destruct (IH _ E2) as [Ev El].
    rewrite Ev1 in Ev, El. rewrite El1 in El.
    cbn [flat_map spec_body]. rewrite register_all_app.
    split; [exact Ev|]. rewrite El. apply app_snoc_app.
Qed.

Lemma write_declarations_spec (i n : nat) :
  write_declarations i n =
  String.concat ", " (map (fun k => var_ref k ++ " = 0") (seq i n)).
Proof.
  revert i. induction n as [|n IH]; intro i; [reflexivity|].
  cbn [write_declarations seq map]. rewrite concat_cons, IH.
  destruct n as [|n]; cbn [seq map].
  - reflexivity.
  - now rewrite append_assoc.
Qed.

Lemma spec_body_length (stmts : list string) (vs : list variable) :
  length (spec_body stmts vs) = length stmts.
Proof.
  revert vs. induction stmts as [|p stmts IH]; intro vs; simpl;
    [reflexivity | now rewrite IH].
Qed.

Lemma write_lines_spec (ls : list string) :
  write_lines ls = String.concat "" (map (fun l => l ++ nl) ls).
Proof.
  induction ls as [|l ls IH]; [reflexivity|].
  cbn [write_lines map]. rewrite concat_cons, IH.
  destruct ls as [|l2 ls]; cbn [map].
  - reflexivity.
  - now rewrite append_assoc.
Qed.

Lemma compile_file_table (lines : list string) (st : state) :
  compile_file lines initial_state = Ok (tt, st) ->
  names (vars st) = distinct (program_refs lines) /\
  output_lines st = spec_body (statements lines) [].
Proof.
  intro E. apply compile_file_inv in E. destruct E as [Ev El].
  split; [|exact El].
  rewrite Ev. now rewrite names_register_all.
Qed.

(** C1. In every compilation that ends without a fatal error the table
    holds the distinct variable names of the file in order of first
    occurrence, whatever the position of the occurrence in its statement:
    no name twice, the slot of a name is the number of distinct names met
    before its first occurrence, and the declaration list written is
    [v0 = 0, ..., v(N-1) = 0], one entry per distinct name in slot order. *)
Theorem slots_dense (lines : list string) (st : state) :
  compile_file lines initial_state = Ok (tt, st) ->
  names (vars st) = distinct (program_refs lines) /\
  NoDup (names (vars st)) /\
  (forall pre nm post,
     program_refs lines = (pre ++ nm :: post)%list -> ~ In nm pre ->
     slot_of nm (names (vars st)) = length (distinct pre) /\
     nth_error (names (vars st)) (length (distinct pre)) = Some nm) /\
  var_count st = length (distinct (program_refs lines)) /\
  write_declarations 0 (var_count st) =
  String.concat ", "
    (map (fun slot => "v" ++ fmt_d slot ++ " = 0")
         (seq 0 (length (distinct (program_refs lines))))).
Proof.
  intro E. apply compile_file_table in E. destruct E as [En _].
  assert (Ec : var_count st = length (distinct (program_refs lines))).
  { unfold var_count. rewrite <- En. unfold names. now rewrite length_map. }
  split; [exact En|]. split; [|split; [|split]].
  - rewrite En. apply distinct_from_NoDup.
  - intros pre nm post Er N. rewrite En, Er.
    pose proof (slot_of_distinct pre post nm N) as Hs.
    split; [exact Hs|]. rewrite <- Hs. apply slot_of_lt.
    unfold distinct. rewrite distinct_from_In, in_app_iff. simpl. tauto.
  - exact Ec.
  - rewrite Ec. apply write_declarations_spec.
Qed.

Lemma slots_dense_witness :
  names (vars (mkState [mkVariable "x" 1%Z; mkVariable "y" 1%Z;
                        mkVariable "result" 1%Z]
                 ["    v0 = 5;"; "    v1 = 10;"; "    v2 = v0 + v1;";
                  printf_open ++ "v2" ++ ");"]))
  = distinct (program_refs sample).
Proof.
  apply (slots_dense sample). vm_compute. reflexivity.
Defined.

(** C9. The text written for a compilation that ends without a fatal
    error is, in this order: the [#include] line and an empty line, the
    opening of [main], one declaration line [long long v0 = 0, ...,
    v(N-1) = 0;] for the N variables of the file (no such line when N is
    0), the generated lines, one per statement in the order of the
    statements of the source, and [return 0;] with the closing brace. *)
Theorem emitted_program (lines : list string) (text : string) :
  transpile lines = Ok text ->
  let n := length (distinct (program_refs lines)) in
  let body := spec_body (statements lines) [] in
  length body = length (statements lines) /\
  text =
  "#include <stdio.h>" ++ nl ++ nl ++
  "int main() {" ++ nl ++
  (match n with
   | 0 => ""
   | S _ => "    long long " ++ spec_declarations n ++ ";" ++ nl
   end) ++
  String.concat "" (map (fun l => l ++ nl) body) ++
  "    return 0;" ++ nl ++
  "}" ++ nl.
Proof.
  unfold transpile.
  destruct (compile_file lines initial_state) as [[[] st]|msg|] eqn:E;
    [|discriminate|discriminate].
  intro H. injection H as <-.
  split; [apply spec_body_length|].
  destruct (compile_file_table _ _ E) as [En El].
  assert (Ec : var_count st = length (distinct (program_refs lines))).
  { unfold var_count. rewrite <- En. unfold names. now rewrite length_map. }
  unfold write_program. rewrite Ec, El, write_lines_spec.
  destruct (length (distinct (program_refs lines))) as [|n'];
    [reflexivity|].
  now rewrite write_declarations_spec.
Qed.

Lemma emitted_program_witness :
  exists text,
    transpile sample = Ok text /\
    text =
    "#include <stdio.h>" ++ nl ++ nl ++
    "int main() {" ++ nl ++
    "    long long v0 = 0, v1 = 0, v2 = 0;" ++ nl ++
    "    v0 = 5;" ++ nl ++
    "    v1 = 10;" ++ nl ++
    "    v2 = v0 + v1;" ++ nl ++
    printf_open ++ "v2);" ++ nl ++
    "    return 0;" ++ nl ++
    "}" ++ nl.
Proof.
  destruct (transpile sample) as [text|msg|] eqn:E.
  - exists text. split; [reflexivity|].
    destruct (emitted_program sample text E) as [_ H].
    rewrite H. vm_compute. reflexivity.
  - vm_compute in E. discriminate.
  - vm_compute in E. discriminate.
Defined.

(** ** The tokenizer *)

Lemma word_not_space (c : ascii) :
  is_word_char c = true -> isspace c = false.
Proof.
  destruct c as [b0 b1 b2 b3 b4 b5 b6 b7].
  destruct b0, b1, b2, b3, b4, b5, b6, b7; vm_compute;
    intro H; reflexivity || discriminate H.
Qed.

Lemma take_word_length (room : nat) (p : string) :
  String.length (fst (take_word room p)) <= room.
Proof.
  revert p. induction room as [|room IH]; intro p; [simpl; lia|].
  destruct p as [|c r]; [simpl; lia|]. cbn [take_word].
  destruct (is_word_char c); [|simpl; lia].
  specialize (IH r). destruct (take_word room r). simpl in *. lia.
Qed.

Lemma take_word_head (room : nat) (c : ascii) (r : string) :
  is_word_char c = true ->
  1 <= String.length (fst (take_word (S room) (String c r))).
Proof.
  intro W. cbn [take_word]. rewrite W.
  destruct (take_word room r). simpl. lia.
Qed.

Lemma take_word_full (a b : string) :
  all_word_chars a = true -> take_word (String.length a) (a ++ b) = (a, b).
Proof.
  induction a as [|c a IH]; simpl.
  - intros _. now destruct b.
  - destruct (is_word_char c); [|discriminate].
    intro H. now rewrite (IH H).
Qed.

Lemma take_word_span (w rest : string) (room : nat) :
  all_word_chars w = true -> stops rest -> String.length w <= room ->
  take_word room (w ++ rest) = (w, rest).
Proof.
  revert room. induction w as [|c w IH]; intros room Hw Hs Hl.
  - simpl. destruct room, rest; try reflexivity.
    simpl in *. now rewrite Hs.
  - destruct room as [|room]; [simpl in Hl; lia|].
    simpl in *. destruct (is_word_char c); [|discriminate].
    rewrite IH; [reflexivity | assumption | assumption | lia].
Qed.

Lemma span_word (s : string) :
  exists w rest, s = w ++ rest /\ all_word_chars w = true /\ stops rest.
Proof.
  induction s as [|c s (w & rest & E & Hw & Hs)].
  - exists "", "". simpl. auto.
  - destruct (is_word_char c) eqn:W.
    + exists (String c w), rest. simpl. rewrite W, E. auto.
    + exists "", (String c s). simpl. auto.
Qed.

Lemma tokenize_from_length (room : nat) (p : string) :
  length (tokenize_from room p) <= room.
Proof.
  revert p. induction room as [|room IH]; intro p; [simpl; lia|].
  cbn [tokenize_from].
  destruct (skip_spaces p) as [|c r]; [simpl; lia|].
  destruct (is_word_char c).
  - destruct (take_word TOKEN_CHARS (String c r)) as [tok rest].
    simpl. specialize (IH rest). lia.
  - simpl. specialize (IH r). lia.
Qed.

Lemma tokenize_from_tokens (room : nat) (p : string) :
  Forall (fun tok => 1 <= String.length tok <= TOKEN_CHARS)
         (tokenize_from room p).
Proof.
  revert p. induction room as [|room IH]; intro p; [constructor|].
  cbn [tokenize_from].
  destruct (skip_spaces p) as [|c r]; [constructor|].
  destruct (is_word_char c) eqn:W.
  - pose proof (take_word_length TOKEN_CHARS (String c r)) as Hl.
    pose proof (take_word_head 62 c r W) as Hh.
    change (S 62) with TOKEN_CHARS in Hh.
    destruct (take_word TOKEN_CHARS (String c r)) as [tok rest].
    constructor; [simpl in *; lia | apply IH].
  - constructor; [|apply IH]. unfold TOKEN_CHARS. simpl. lia.
Qed.

(** Tokens past the capacity are left out; those before are the same. *)
Lemma tokenize_from_firstn (room extra : nat) (p : string) :
  tokenize_from room p = firstn room (tokenize_from (room + extra) p).
Proof.
  revert p. induction room as [|room IH]; intro p; [reflexivity|].
  cbn [tokenize_from Nat.add].
  destruct (skip_spaces p) as [|c r]; [reflexivity|].
  destruct (is_word_char c).
  - destruct (take_word TOKEN_CHARS (String c r)) as [tok rest].
    cbn [firstn]. now rewrite <- IH.
  - cbn [firstn]. now rewrite <- IH.
Qed.

(** A run of 63 word characters fills a token, whatever follows it. *)
Lemma tokenize_from_cut (room : nat) (a b : string) :
  all_word_chars a = true -> String.length a = TOKEN_CHARS ->
  tokenize_from (S room) (a ++ b) = a :: tokenize_from room b.
Proof.
  intros Hw Hl. cbn [tokenize_from].
  destruct a as [|c a]; [discriminate|].
  assert (W : is_word_char c = true).
  { simpl in Hw. destruct (is_word_char c); [reflexivity | discriminate]. }
  change (String c a ++ b) with (String c (a ++ b)).
  rewrite (skip_spaces_fixed c (a ++ b) (word_not_space c W)), W.
  change (String c (a ++ b)) with (String c a ++ b).
  rewrite <- Hl. now rewrite take_word_full.
Qed.

Lemma spec_tokens_word (w cur rest : string) :
  all_word_chars w = true ->
  spec_tokens cur (w ++ rest) = spec_tokens (cur ++ w) rest.
Proof.
  revert cur. induction w as [|c w IH]; intros cur Hw.
  - simpl. now rewrite append_nil_r.
  - simpl in *. destruct (is_word_char c); [|discriminate].
    rewrite (IH _ Hw). now rewrite append_assoc.
Qed.

Lemma spec_tokens_stop (cur rest : string) :
  stops rest ->
  spec_tokens cur rest = (flush cur ++ spec_tokens "" rest)%list.
Proof.
  destruct rest as [|c r]; simpl.
  - intros _. now rewrite app_nil_r.
  - intros ->. destruct (isspace c); reflexivity.
Qed.

Lemma spec_tokens_skip (p : string) :
  spec_tokens "" p = spec_tokens "" (skip_spaces p).
Proof.
  induction p as [|c r IH]; [reflexivity|].
  cbn [skip_spaces]. destruct (isspace c) eqn:S; [|reflexivity].
  cbn [spec_tokens]. rewrite S.
  destruct (is_word_char c) eqn:W.
  - apply word_not_space in W. congruence.
  - exact IH.
Qed.

(** Within the two bounds the tokenizer is the tokenizer of the
    specification. *)
Lemma tokenize_from_spec (room : nat) (p : string) :
  length (spec_tokenize p) <= room ->
  Forall (fun tok => String.length tok <= TOKEN_CHARS) (spec_tokenize p) ->
  tokenize_from room p = spec_tokenize p.
Proof.
  unfold spec_tokenize. revert p.
  induction room as [|room IH]; intros p Hn Hl.
  - destruct (spec_tokens "" p); [reflexivity | simpl in Hn; lia].
  - cbn [tokenize_from]. rewrite spec_tokens_skip in Hn, Hl |- *.
    destruct (skip_spaces p) as [|c r] eqn:E; [reflexivity|].
    destruct (is_word_char c) eqn:W.
    + destruct (span_word (String c r)) as (w & rest & Es & Hw & Hs).
      destruct w as [|c' w].
      { simpl in Es. subst rest. simpl in Hs. congruence. }
      rewrite Es in Hn, Hl |- *.
      rewrite spec_tokens_word, spec_tokens_stop in Hn, Hl |- * by assumption.
      change ("" ++ String c' w) with (String c' w) in Hn, Hl |- *.
      cbn [flush app] in Hn, Hl |- *.
      inversion Hl as [|? ? Hlw Hlr]; subst.
      rewrite take_word_span by assumption.
      f_equal. apply IH; [simpl in Hn; lia | assumption].
    + cbn [spec_tokens] in Hn, Hl |- *. rewrite W in Hn, Hl |- *.
      rewrite (skip_spaces_head _ _ _ E) in Hn, Hl |- *.
      cbn [flush app] in Hn, Hl |- *.
      inversion Hl as [|? ? Hlw Hlr]; subst.
      f_equal. apply IH; [simpl in Hn; lia | assumption].
Qed.

Lemma take_word_word (room : nat) (p : string) :
  all_word_chars (fst (take_word room p)) = true.
Proof.
  revert p. induction room as [|room IH]; intro p; [reflexivity|].
  destruct p as [|c r]; [reflexivity|]. cbn [take_word].
  destruct (is_word_char c) eqn:W; [|reflexivity].
  specialize (IH r). destruct (take_word room r). simpl in *.
  now rewrite W.
Qed.

(** C3, as the code has it.  The tokenizer keeps at most [MAX_TOKENS] =
    100 tokens of 1 to 63 characters each and has no error outcome: what
    follows the 100th token is left out (the tokens are a prefix of those
    a larger capacity gives), and a run of word characters is cut after
    its 63rd character, the rest of the run starting the next token. *)
Theorem tokenizer_limits (line : string) :
  MAX_TOKENS = 100 /\ TOKEN_CHARS = 63 /\
  length (tokenize line) <= MAX_TOKENS /\
  Forall (fun tok => 1 <= String.length tok <= TOKEN_CHARS) (tokenize line) /\
  (forall extra,
     tokenize line = firstn MAX_TOKENS (tokenize_from (MAX_TOKENS + extra) line)) /\
  (forall room a b,
     all_word_chars a = true -> String.length a = TOKEN_CHARS ->
     tokenize_from (S room) (a ++ b) = a :: tokenize_from room b).
Proof.
  split; [reflexivity|]. split; [reflexivity|].
  split; [apply tokenize_from_length|].
  split; [apply tokenize_from_tokens|].
  split; [intro extra; apply tokenize_from_firstn|].
  intros room a b. apply tokenize_from_cut.
Qed.

Lemma tokenizer_limits_witness :
  tokenize (repeat_string 63 "1" ++ "1 + 2") =
  [repeat_string 63 "1"; "1"; "+"; "2"].
Proof.
  destruct (tokenizer_limits "") as (_ & _ & _ & _ & _ & H).
  unfold tokenize. change MAX_TOKENS with (S 99).
  rewrite (H 99 (repeat_string 63 "1") "1 + 2");
    [|vm_compute; reflexivity|vm_compute; reflexivity].
  vm_compute. reflexivity.
Defined.

(** C3 fails as stated: a line of 101 tokens and a line with a run of 64
    digits both compile without a fatal error, the first with its last
    token dropped and the second with the literal cut in two. *)
Lemma tokenizer_limits_not_fatal :
  (length (spec_tokenize long_line) = 101 /\
   length (tokenize long_line) = 100 /\
   compile_line long_line initial_state =
   Ok (tt, mkState [mkVariable "x" 1%Z]
             ["    v0 = 1" ++ repeat_string 48 " + 1" ++ " +;"])) /\
  (spec_tokenize long_word = ["x"; "="; repeat_string 64 "1"] /\
   tokenize long_word = ["x"; "="; repeat_string 63 "1"; "1"] /\
   compile_line long_word initial_state =
   Ok (tt, mkState [mkVariable "x" 1%Z]
             ["    v0 = " ++ repeat_string 63 "1" ++ " 1;"])).
Proof. vm_compute. repeat split. Qed.

Lemma tokenize_from_shape (room : nat) (p : string) :
  Forall token_shape (tokenize_from room p).
Proof.
  revert p. induction room as [|room IH]; intro p; [constructor|].
  cbn [tokenize_from].
  destruct (skip_spaces p) as [|c r] eqn:E; [constructor|].
  destruct (is_word_char c) eqn:W.
  - pose proof (take_word_word TOKEN_CHARS (String c r)) as Hw.
    pose proof (take_word_head 62 c r W) as Hh.
    change (S 62) with TOKEN_CHARS in Hh.
    destruct (take_word TOKEN_CHARS (String c r)) as [tok rest].
    constructor; [|apply IH]. left. simpl in *. split; [|assumption].
    destruct tok; [simpl in Hh; lia | discriminate].
  - constructor; [|apply IH]. right. exists c.
    repeat split; [assumption|]. now apply skip_spaces_head in E.
Qed.

(** C4, as the code has it.  No token holds a space: each is a run of word
    characters or a single other character.  For a line that has at most
    [MAX_TOKENS] tokens and no run of word characters longer than 63, the
    tokens are those of the specification: whitespace skipped, every
    maximal run of word characters one token, every other character a
    token of its own, left to right.  ["x = 5"] and ["result = x + y"] give
    the tokens the specification lists. *)
Theorem tokenize_within_bounds (line : string) :
  Forall token_shape (tokenize line) /\
  (length (spec_tokenize line) <= MAX_TOKENS ->
   Forall (fun tok => String.length tok <= TOKEN_CHARS) (spec_tokenize line) ->
   tokenize line = spec_tokenize line) /\
  tokenize "x = 5" = ["x"; "="; "5"] /\
  tokenize "result = x + y" = ["result"; "="; "x"; "+"; "y"].
Proof.
  split; [apply tokenize_from_shape|].
  split; [apply tokenize_from_spec|].
  split; reflexivity.
Qed.

Lemma tokenize_within_bounds_witness :
  tokenize "total_1=(x+ y2)  * 3" =
  spec_tokenize "total_1=(x+ y2)  * 3".
Proof.
  destruct (tokenize_within_bounds "total_1=(x+ y2)  * 3") as (_ & H & _).
  apply H.
  - apply Nat.leb_le. vm_compute. reflexivity.
  - vm_compute. repeat (apply Forall_cons; [lia|]). apply Forall_nil.
Defined.

(** C4 fails as stated: a run of 64 letters is a maximal run, and the
    tokenizer makes two tokens of it. *)
Lemma tokenize_splits_long_run :
  all_word_chars long_name = true /\
  spec_tokenize long_name = [long_name] /\
  tokenize long_name = [repeat_string 63 "a"; "a"] /\
  tokenize long_name <> spec_tokenize long_name.
Proof.
  split; [reflexivity|]. split; [reflexivity|]. split; [reflexivity|].
  vm_compute. discriminate.
Qed.

(** ** The examples of the specification *)

Example print_registers_slot_0 :
  compile_line "print x" initial_state =
  Ok (tt, mkState [mkVariable "x" 1%Z] [printf_open ++ "v0);"]).
Proof. reflexivity. Qed.

Example input_then_use :
  (compile_line "input y" ;;; compile_line "z = y + 1") initial_state =
  Ok (tt, mkState [mkVariable "y" 1%Z; mkVariable "z" 1%Z]
            [scanf_line 0; "    v1 = v0 + 1;"]).
Proof. vm_compute. reflexivity. Qed.

Example comments_and_blanks_ignored :
  transpile sample =
  transpile ["x = 5"; "y = 10"; "result = x + y"; "print result"].
Proof. vm_compute. reflexivity. Qed.


(** * Further properties of the code *)

(** ** The outcome of a statement *)

Lemma statement_refs_other (tok0 : string) (rest : list string) :
  tok0 <> "print" -> tok0 <> "input" ->
  statement_refs (tok0 :: rest) = tok0 :: identifiers (skipn 1 rest).
Proof.
  intros Hp Hi. apply String.eqb_neq in Hp, Hi.
  unfold statement_refs. now rewrite Hp, Hi.
Qed.

Lemma statement_line_other (tbl : list variable) (tok0 : string)
      (rest : list string) :
  tok0 <> "print" -> tok0 <> "input" ->
  statement_line tbl (tok0 :: rest) = assign_line tbl tok0 (skipn 1 rest).
Proof.
  intros Hp Hi. apply String.eqb_neq in Hp, Hi.
  unfold statement_line. now rewrite Hp, Hi.
Qed.

Lemma statement_error_other (tok0 : string) (rest : list string) :
  tok0 <> "print" -> tok0 <> "input" ->
  statement_error (tok0 :: rest) =
  match rest with
  | eq :: _ :: _ =>
      if String.eqb eq "=" then
        if is_identifier tok0 then None
        else Some "Left side must be a variable"
      else Some "Invalid statement"
  | _ => Some "Invalid statement"
  end.
Proof.
  intros Hp Hi. apply String.eqb_neq in Hp, Hi.
  unfold statement_error. now rewrite Hp, Hi.
Qed.

Lemma statement_error_diagnostic (tokens : list string) (msg : string) :
  statement_error tokens = Some msg -> In msg diagnostics.
Proof.
  unfold statement_error, diagnostics.
  destruct tokens as [|tok0 rest]; [discriminate|].
  destruct (String.eqb tok0 "print").
  { destruct rest; [|discriminate]. intro E. injection E as <-. simpl. auto. }
  destruct (String.eqb tok0 "input").
  { destruct rest as [|t [|u rest]];
      try (intro E; injection E as <-; simpl; now auto).
    destruct (is_identifier t); [discriminate|].
    intro E. injection E as <-. simpl. auto. }
  destruct rest as [|t1 [|t2 rest]];
    try (intro E; injection E as <-; simpl; now auto 6).
  destruct (String.eqb t1 "=");
    [|intro E; injection E as <-; simpl; now auto 6].
  destruct (is_identifier tok0); [discriminate|].
  intro E. injection E as <-. simpl. auto 6.
Qed.

(** Every statement at once: a statement of a wrong shape is the fatal
    error of its shape; an [input] is written by [snprintf] and depends on
    the two stores only; a [print] or an assignment is as
    [statement_outcome] says. *)
Lemma compile_tokens_cases (tokens : list string) (st : state) :
  tokens <> [] ->
  match statement_error tokens with
  | Some msg => compile_tokens tokens st = Fatal msg
  | None =>
      (hd "" tokens = "input" /\
       compile_tokens tokens st =
       if overflows (statement_refs tokens) (vars st)
       then Fatal "Too many variables"
       else emitted (register_all (statement_refs tokens) (vars st))
              (statement_line
                 (register_all (statement_refs tokens) (vars st)) tokens) st)
      \/
      (hd "" tokens <> "input" /\
       statement_outcome (overflows (statement_refs tokens) (vars st))
         (register_all (statement_refs tokens) (vars st))
         (statement_line (register_all (statement_refs tokens) (vars st))
            tokens)
         st (compile_tokens tokens st))
  end.
Proof.
  intro Hne. destruct tokens as [|tok0 rest]; [congruence|]. clear Hne.
  destruct (String.eqb_spec tok0 "print") as [->|Hp].
  { destruct rest as [|a rest]; [reflexivity|].
    right. split; [discriminate|].
    apply (compile_print_outcome (a :: rest) st). discriminate. }
  destruct (String.eqb_spec tok0 "input") as [->|Hi].
  { rewrite compile_input_eq.
    destruct rest as [|t [|u rest]]; try reflexivity.
    cbn [statement_error String.eqb Ascii.eqb Bool.eqb].
    destruct (is_identifier t); [|reflexivity].
    left. split; reflexivity. }
  rewrite (statement_refs_other _ _ Hp Hi).
  rewrite (statement_line_other _ _ _ Hp Hi).
  rewrite (statement_error_other _ _ Hp Hi).
  destruct rest as [|t1 [|t2 rest]].
  - apply compile_invalid_eq; [assumption | assumption | discriminate].
  - apply compile_invalid_eq; [assumption | assumption |].
    intros rhs Hr E. injection E as _ <-. congruence.
  - destruct (String.eqb_spec t1 "=") as [->|Hne].
    + cbn [skipn hd]. destruct (is_identifier tok0) eqn:Eid.
      * right. split; [assumption|].
        apply compile_assign_outcome; assumption || discriminate.
      * apply compile_assign_bad; assumption || discriminate.
    + apply compile_invalid_eq; [assumption | assumption |].
      intros rhs Hr E. injection E as E _. congruence.
Qed.

Lemma statement_outcome_overrun (tbl : list variable) (line : string)
      (st : state) (r : result (unit * state)) :
  statement_outcome false tbl line st r ->
  MAX_LINE <= String.length line -> r = Overrun.
Proof.
  unfold statement_outcome. intros H L. destruct r as [[[] st']|msg|].
  - destruct H as (_ & F & _). lia.
  - destruct H as [(F & _)|(_ & F & _)]; [discriminate | lia].
  - reflexivity.
Qed.

Lemma compile_tokens_emitted (tokens : list string) (st : state) :
  tokens <> [] ->
  String.length
    (statement_line (register_all (statement_refs tokens) (vars st)) tokens)
  < MAX_LINE ->
  compile_tokens tokens st =
  match statement_error tokens with
  | Some msg => Fatal msg
  | None =>
      if overflows (statement_refs tokens) (vars st)
      then Fatal "Too many variables"
      else emitted (register_all (statement_refs tokens) (vars st))
             (statement_line (register_all (statement_refs tokens) (vars st))
                tokens) st
  end.
Proof.
  intros Hne L. pose proof (compile_tokens_cases tokens st Hne) as H.
  destruct (statement_error tokens); [exact H|].
  destruct H as [[_ H]|[_ H]]; [exact H|].
  now apply statement_outcome_fits.
Qed.

(** The checks of [compile_line] come in a fixed order.  A statement of a
    wrong shape is the fatal error of its shape.  A statement of a right
    shape whose line has fewer than [MAX_LINE] characters is "Too many
    variables" when the table overflows, else "Too many lines" when the
    line store is full, else it leaves the table with its references
    registered and one line added.  A [print] or an assignment whose line
    does not have fewer than [MAX_LINE] characters, the table not
    overflowing, writes past the end of [output]. *)
Theorem compile_tokens_outcome (tokens : list string) (st : state) :
  tokens <> [] ->
  let tbl := register_all (statement_refs tokens) (vars st) in
  let line := statement_line tbl tokens in
  (forall msg, statement_error tokens = Some msg ->
     compile_tokens tokens st = Fatal msg) /\
  (statement_error tokens = None -> String.length line < MAX_LINE ->
   compile_tokens tokens st =
   if overflows (statement_refs tokens) (vars st)
   then Fatal "Too many variables"
   else if (MAX_LINES <=? output_count st)%nat then Fatal "Too many lines"
   else Ok (tt, mkState tbl (output_lines st ++ [line])%list)) /\
  (statement_error tokens = None -> hd "" tokens <> "input" ->
   overflows (statement_refs tokens) (vars st) = false ->
   MAX_LINE <= String.length line ->
   compile_tokens tokens st = Overrun).
Proof.
  intros Hne tbl line. split; [|split].
  - intros msg E. pose proof (compile_tokens_cases tokens st Hne) as H.
    now rewrite E in H.
  - intros E L. rewrite (compile_tokens_emitted tokens st Hne L), E.
    reflexivity.
  - intros E Hin Ho L. pose proof (compile_tokens_cases tokens st Hne) as H.
    rewrite E, Ho in H. destruct H as [[H _]|[_ H]]; [contradiction|].
    exact (statement_outcome_overrun _ _ _ _ H L).
Qed.

Lemma compile_tokens_outcome_witness :
  compile_tokens ["total"; "="; "a"; "+"; "1"] initial_state =
  Ok (tt, mkState [mkVariable "total" 1%Z; mkVariable "a" 1%Z]
            ["    v0 = v1 + 1;"])
  /\ compile_tokens ["print"; repeat_string 63 "7"; repeat_string 63 "7";
                     repeat_string 63 "7"; repeat_string 63 "7";
                     repeat_string 63 "7"; repeat_string 63 "7";
                     repeat_string 63 "7"; repeat_string 63 "7";
                     repeat_string 63 "7"; repeat_string 63 "7";
                     repeat_string 63 "7"; repeat_string 63 "7";
                     repeat_string 63 "7"; repeat_string 63 "7";
                     repeat_string 63 "7"; repeat_string 63 "7"]
       initial_state = Overrun.
Proof.
  split.
  - pose proof (compile_tokens_outcome ["total"; "="; "a"; "+"; "1"]
                  initial_state ltac:(discriminate)) as H.
    cbn zeta in H. destruct H as (_ & H & _).
    rewrite H; [vm_compute; reflexivity | reflexivity | by_evaluation].
  - pose proof (compile_tokens_outcome
                  ["print"; repeat_string 63 "7"; repeat_string 63 "7";
                   repeat_string 63 "7"; repeat_string 63 "7";
                   repeat_string 63 "7"; repeat_string 63 "7";
                   repeat_string 63 "7"; repeat_string 63 "7";
                   repeat_string 63 "7"; repeat_string 63 "7";
                   repeat_string 63 "7"; repeat_string 63 "7";
                   repeat_string 63 "7"; repeat_string 63 "7";
                   repeat_string 63 "7"; repeat_string 63 "7"]
                  initial_state ltac:(discriminate)) as H.
    cbn zeta in H. destruct H as (_ & _ & H).
    apply H; [reflexivity | discriminate | reflexivity | by_evaluation].
Defined.

(** What a statement that compiles tells about its tokens and about the
    state before it. *)
Lemma compile_tokens_ok (tokens : list string) (st st' : state) :
  tokens <> [] ->
  compile_tokens tokens st = Ok (tt, st') ->
  statement_error tokens = None /\
  overflows (statement_refs tokens) (vars st) = false /\
  output_count st < MAX_LINES.
Proof.
  intros Hne E. pose proof (compile_tokens_cases tokens st Hne) as H.
  rewrite E in H.
  destruct (statement_error tokens); [discriminate|].
  destruct H as [[_ H]|[_ H]].
  - destruct (overflows _ _); [discriminate|]. unfold emitted in H.
    destruct (Nat.leb_spec MAX_LINES (output_count st)); [discriminate|].
    auto.
  - destruct H as (Ho & _ & Hl & _). auto.
Qed.

(** A statement that stops through [error] says one of seven things. *)
Lemma compile_tokens_fatal (tokens : list string) (st : state) (msg : string) :
  tokens <> [] ->
  compile_tokens tokens st = Fatal msg -> In msg diagnostics.
Proof.
  intros Hne E. pose proof (compile_tokens_cases tokens st Hne) as H.
  rewrite E in H.
  destruct (statement_error tokens) as [m|] eqn:Ee.
  { injection H as <-. exact (statement_error_diagnostic _ _ Ee). }
  assert (Hm : msg = "Too many variables" \/ msg = "Too many lines").
  { destruct H as [[_ H]|[_ H]].
    - destruct (overflows _ _); [injection H as <-; now left|].
      unfold emitted in H.
      destruct (MAX_LINES <=? output_count st)%nat; [|discriminate].
      injection H as <-. now right.
    - destruct H as [[_ ->]|(_ & _ & _ & ->)]; auto. }
  unfold diagnostics. simpl. destruct Hm as [->| ->]; auto 8.
Qed.

(** The references of a well-shaped statement are identifiers among its
    tokens. *)
Lemma statement_refs_identifiers (tokens : list string) :
  statement_error tokens = None ->
  Forall (fun r => is_identifier r = true /\ In r tokens)
         (statement_refs tokens).
Proof.
  destruct tokens as [|tok0 rest]; [constructor|].
  assert (Hids : forall l, incl l rest ->
            Forall (fun r => is_identifier r = true /\ In r (tok0 :: rest))
                   (identifiers l)).
  { intros l Hl. apply Forall_forall. intros r Hr.
    apply filter_In in Hr. destruct Hr as [Hin Hid].
    split; [assumption | right; now apply Hl]. }
  unfold statement_error, statement_refs.
  destruct (String.eqb tok0 "print").
  { intros _. apply Hids, incl_refl. }
  destruct (String.eqb tok0 "input").
  { destruct rest as [|t [|u rest]]; try discriminate.
    destruct (is_identifier t) eqn:E; [|discriminate].
    intros _. cbn [firstn].
    constructor; [split; [assumption | right; now left] | constructor]. }
  destruct rest as [|t1 [|t2 rest]]; try discriminate.
  destruct (String.eqb t1 "="); [|discriminate].
  destruct (is_identifier tok0) eqn:E; [|discriminate].
  intros _. constructor; [split; [assumption | now left]|].
  apply Hids. cbn [skipn]. intros x Hx. now right.
Qed.

(** ** The reading loop *)

(** Reading a file in two parts is reading the first part, then the
    second. *)
Lemma compile_file_app (pre post : list string) (st : state) :
  compile_file (pre ++ post) st =
  (compile_file pre ;;; compile_file post) st.
Proof.
  revert st. induction pre as [|line pre IH]; intro st; [reflexivity|].
  cbn [app compile_file].
  destruct (statement_of line) as [p|]; [|apply IH].
  unfold bind at 1 2 3.
  destruct (compile_line p st) as [[[] st1]|msg|]; [|reflexivity..].
  rewrite IH. reflexivity.
Qed.

(** The first fatal error ends the compilation: what follows the line that
    fails is not looked at, and what precedes it decides the state it is
    compiled in. *)
Theorem compile_file_stops (pre post : list string) (st : state) :
  (forall msg, compile_file pre st = Fatal msg ->
               compile_file (pre ++ post) st = Fatal msg) /\
  (forall st1, compile_file pre st = Ok (tt, st1) ->
               compile_file (pre ++ post) st = compile_file post st1).
Proof.
  split.
  - intros msg E. rewrite compile_file_app. unfold bind. now rewrite E.
  - intros st1 E. rewrite compile_file_app. unfold bind. now rewrite E.
Qed.

Lemma compile_file_stops_witness :
  compile_file ["x = 1"; "y = = "; "print"; "z = 2"] initial_state =
  Fatal "print needs an argument".
Proof.
  destruct (compile_file_stops ["x = 1"; "y = = "; "print"] ["z = 2"]
              initial_state) as [H _].
  apply H. vm_compute. reflexivity.
Defined.

Lemma statement_of_space (c : ascii) (r : string) :
  isspace c = true ->
  statement_of (String c r) =
  if Ascii.eqb c newline then None else statement_of r.
Proof.
  intro S. unfold statement_of. cbn [chomp].
  destruct (Ascii.eqb c newline); [reflexivity|].
  cbn [skip_spaces]. now rewrite S.
Qed.

Lemma statement_of_blank (ws : string) :
  all_spaces ws = true -> statement_of ws = None.
Proof.
  induction ws as [|c ws IH]; [reflexivity|].
  cbn [all_spaces]. intro H. apply andb_prop in H. destruct H as [S H].
  rewrite (statement_of_space c ws S).
  destruct (Ascii.eqb c newline); [reflexivity | now apply IH].
Qed.

Lemma statement_of_comment (ws rest : string) :
  all_spaces ws = true -> statement_of (ws ++ String hash rest) = None.
Proof.
  induction ws as [|c ws IH]; [reflexivity|].
  cbn [all_spaces]. intro H. apply andb_prop in H. destruct H as [S H].
  change (String c ws ++ String hash rest)
    with (String c (ws ++ String hash rest)).
  rewrite (statement_of_space c _ S).
  destruct (Ascii.eqb c newline); [reflexivity | now apply IH].
Qed.

(** Among the results of [fgets], one that is whitespace only and one
    whose first character after the whitespace is [#] change nothing,
    wherever they stand: neither the numbering of the variables nor the
    lines generated nor the error reported. *)
Theorem skipped_lines_ignored (ws rest : string) (pre post : list string)
        (st : state) :
  all_spaces ws = true ->
  compile_file (pre ++ ws :: post) st = compile_file (pre ++ post) st /\
  compile_file (pre ++ (ws ++ String hash rest) :: post) st =
  compile_file (pre ++ post) st.
Proof.
  intro H. rewrite !compile_file_app. unfold bind.
  destruct (compile_file pre st) as [[[] st1]|msg|];
    [|split; reflexivity..].
  cbn [compile_file].
  now rewrite (statement_of_blank ws H), (statement_of_comment ws rest H).
Qed.

Lemma skipped_lines_ignored_witness :
  compile_file ["x = 1"; "  " ++ nl; "print x"] initial_state =
  compile_file ["x = 1"; "print x"] initial_state
  /\ compile_file ["x = 1"; "  # y = 2"; "print x"] initial_state =
     compile_file ["x = 1"; "print x"] initial_state.
Proof.
  apply (skipped_lines_ignored ("  " ++ nl) " y = 2" ["x = 1"] ["print x"]).
  reflexivity.
Defined.

(** ** Invariants of the compilation state *)

Section Invariant.

Variable Inv : state -> Prop.

Hypothesis Inv_statement :
  forall (p : string) (st st' : state),
    tokenize p <> [] ->
    compile_tokens (tokenize p) st = Ok (tt, st') ->
    Inv st -> Inv st'.

(** What every statement keeps, the compilation of a file keeps. *)
Lemma compile_file_invariant (lines : list string) (st st' : state) :
  compile_file lines st = Ok (tt, st') -> Inv st -> Inv st'.
Proof.
  revert st. induction lines as [|line rest IH]; intro st.
  - simpl. unfold ret. intro E. now injection E as <-.
  - cbn [compile_file].
    destruct (statement_of line) as [p|] eqn:Es; [|apply IH].
    destruct (statement_of_tokens _ _ Es) as [Hne Ecl].
    unfold bind. rewrite Ecl.
    destruct (compile_tokens (tokenize p) st) as [[[] st1]|msg|] eqn:E1;
      [|discriminate|discriminate].
    intros E2 HI. apply (IH st1 E2).
    exact (Inv_statement p st st1 Hne E1 HI).
Qed.

End Invariant.

Lemma overflows_bound (nms : list string) (vs : list variable) :
  overflows nms vs = false -> length vs <= MAX_VARS ->
  length (register_all nms vs) <= MAX_VARS.
Proof.
  revert vs. induction nms as [|nm nms IH]; intros vs H L; [exact L|].
  cbn [overflows] in H. cbn [register_all fold_left].
  fold (register_all nms (register vs nm)).
  destruct (known nm vs) eqn:K.
  - rewrite (register_old _ _ K). now apply IH.
  - rewrite (register_new _ _ K). apply orb_false_elim in H.
    destruct H as [H1 H2]. apply IH; [assumption|].
    apply Nat.leb_gt in H1. rewrite length_app. simpl. lia.
Qed.

Lemma register_all_used (nms : list string) (vs : list variable) :
  Forall (fun v => used v = 1%Z) vs ->
  Forall (fun v => used v = 1%Z) (register_all nms vs).
Proof.
  revert vs. induction nms as [|nm nms IH]; intros vs H; [exact H|].
  cbn [register_all fold_left]. fold (register_all nms (register vs nm)).
  apply IH. unfold register. destruct (known nm vs); [assumption|].
  apply Forall_app. split; [assumption |]. now constructor.
Qed.

Lemma register_all_NoDup (nms : list string) (vs : list variable) :
  NoDup (names vs) -> NoDup (names (register_all nms vs)).
Proof.
  intro H. rewrite names_register_all. apply NoDup_app.
  - exact H.
  - apply distinct_from_NoDup.
  - intros a Ha Hd. apply distinct_from_In in Hd. tauto.
Qed.

Lemma register_all_Forall (P : string -> Prop) (nms : list string)
      (vs : list variable) :
  Forall P (names vs) -> Forall P nms ->
  Forall P (names (register_all nms vs)).
Proof.
  intros Hv Hn. rewrite names_register_all. apply Forall_app.
  split; [assumption|]. apply Forall_forall. intros x Hx.
  apply distinct_from_In in Hx. destruct Hx as [Hx _].
  revert x Hx. now apply Forall_forall.
Qed.

(** The arrays never overflow and the table stays a table: from a state
    with at most [MAX_VARS] variables of distinct names, all marked used,
    and at most [MAX_LINES] lines, a compilation that ends without a fatal
    error leaves such a state. *)
Theorem compile_file_well_formed (lines : list string) (st st' : state) :
  well_formed st ->
  compile_file lines st = Ok (tt, st') ->
  well_formed st'.
Proof.
  intros W E. revert W.
  apply (compile_file_invariant well_formed) with (lines := lines);
    [|exact E].
  clear. intros p st st' Hne E (Wv & Wl & Wn & Wu).
  destruct (compile_tokens_ok _ _ _ Hne E) as (_ & Ho & Hl).
  destruct (compile_tokens_inv _ _ _ Hne E) as [Ev El].
  unfold well_formed, var_count, output_count. rewrite Ev, El.
  split; [now apply overflows_bound|]. split.
  - rewrite length_app. unfold output_count in Hl. simpl. lia.
  - split; [now apply register_all_NoDup | now apply register_all_used].
Qed.

Lemma compile_file_well_formed_witness :
  well_formed (mkState [mkVariable "x" 1%Z; mkVariable "y" 1%Z;
                        mkVariable "result" 1%Z]
                 ["    v0 = 5;"; "    v1 = 10;"; "    v2 = v0 + v1;";
                  printf_open ++ "v2" ++ ");"]).
Proof.
  apply (compile_file_well_formed sample initial_state).
  - repeat split; try constructor.
    + apply Nat.leb_le. vm_compute. reflexivity.
    + apply Nat.leb_le. vm_compute. reflexivity.
  - vm_compute. reflexivity.
Defined.

Lemma tokenize_tokens (line : string) :
  Forall (fun tok => 1 <= String.length tok <= TOKEN_CHARS) (tokenize line).
Proof. unfold tokenize. apply tokenize_from_tokens. Qed.

(** Every name in the table fits its array and is an identifier: a
    compilation only stores identifiers of at most 63 characters, so the
    [strcpy] into [char name[64]] stays inside the array. *)
Theorem stored_names_fit (lines : list string) (st st' : state) :
  Forall storable (names (vars st)) ->
  compile_file lines st = Ok (tt, st') ->
  Forall storable (names (vars st')).
Proof.
  intros W E. revert W.
  apply (compile_file_invariant
           (fun s => Forall storable (names (vars s)))) with (lines := lines);
    [|exact E].
  clear. intros p st st' Hne E W.
  destruct (compile_tokens_ok _ _ _ Hne E) as (Herr & _ & _).
  destruct (compile_tokens_inv _ _ _ Hne E) as [Ev _].
  rewrite Ev. apply register_all_Forall; [assumption|].
  pose proof (statement_refs_identifiers _ Herr) as Hr.
  pose proof (tokenize_tokens p) as Ht.
  rewrite Forall_forall in Hr, Ht.
  apply Forall_forall. intros r Hin. destruct (Hr r Hin) as [Hid Htok].
  split; [assumption|]. apply (Ht r Htok).
Qed.

Lemma stored_names_fit_witness :
  Forall storable ["x"; "y"; "result"].
Proof.
  apply (stored_names_fit sample initial_state
           (mkState [mkVariable "x" 1%Z; mkVariable "y" 1%Z;
                     mkVariable "result" 1%Z]
              ["    v0 = 5;"; "    v1 = 10;"; "    v2 = v0 + v1;";
               printf_open ++ "v2" ++ ");"])).
  - constructor.
  - vm_compute. reflexivity.
Defined.

(** Nothing is taken back: after more lines are compiled every variable
    registered before has the slot it had, resolving it again returns
    that slot without touching the state, and the lines generated before
    are still there, in place, followed by one line per new statement. *)
Theorem compilation_is_monotone (lines : list string) (st st' : state) :
  compile_file lines st = Ok (tt, st') ->
  (forall nm, In nm (names (vars st)) ->
     slot_of nm (names (vars st')) = slot_of nm (names (vars st)) /\
     find_or_add_var nm st' = Ok (slot_of nm (names (vars st)), st')) /\
  (exists more, vars st' = (vars st ++ more)%list) /\
  (exists more, output_lines st' = (output_lines st ++ more)%list /\
                length more = length (statements lines)).
Proof.
  intro E. destruct (compile_file_inv _ _ _ E) as [Ev El].
  destruct (register_all_extends (program_refs lines) (vars st)) as [m Em].
  rewrite Em in Ev.
  split; [|split].
  - intros nm Hin.
    assert (Hs : slot_of nm (names (vars st')) = slot_of nm (names (vars st))).
    { rewrite Ev, names_app. now apply slot_of_app. }
    split; [exact Hs|].
    rewrite find_or_add_var_eq, <- Hs.
    assert (K : known nm (vars st') = true).
    { rewrite Ev, known_app. apply known_In in Hin. now rewrite Hin. }
    now rewrite K.
  - now exists m.
  - exists (spec_body (statements lines) (vars st)).
    split; [exact El | apply spec_body_length].
Qed.

Lemma compilation_is_monotone_witness :
  exists more,
    output_lines (mkState [mkVariable "a" 1%Z; mkVariable "b" 1%Z]
                    ["    v0 = 1;"; "    v1 = v0;"]) =
    (output_lines (mkState [mkVariable "a" 1%Z] ["    v0 = 1;"]) ++ more)%list
    /\ length more = length (statements ["b = a"]).
Proof.
  apply (compilation_is_monotone ["b = a"]
           (mkState [mkVariable "a" 1%Z] ["    v0 = 1;"])).
  vm_compute. reflexivity.
Defined.

Lemma program_refs_identifiers (lines : list string) (st st' : state) :
  compile_file lines st = Ok (tt, st') ->
  Forall (fun r => is_identifier r = true) (program_refs lines).
Proof.
  revert st. induction lines as [|line rest IH]; intro st; [constructor|].
  cbn [compile_file]. unfold program_refs in *. cbn [statements].
  destruct (statement_of line) as [p|] eqn:Es; [|apply IH].
  destruct (statement_of_tokens _ _ Es) as [Hne Ecl].
  unfold bind. rewrite Ecl.
  destruct (compile_tokens (tokenize p) st) as [[[] st1]|msg|] eqn:E1;
    [|discriminate|discriminate].
  intro E2. cbn [flat_map]. apply Forall_app. split; [|exact (IH _ E2)].
  destruct (compile_tokens_ok _ _ _ Hne E1) as (Herr & _ & _).
  pose proof (statement_refs_identifiers _ Herr) as Hr.
  rewrite Forall_forall in Hr. apply Forall_forall.
  intros r Hin. now destruct (Hr r Hin).
Qed.

Lemma tokenize_spec (p : string) :
  within_limits p -> tokenize p = spec_tokenize p.
Proof. intros [Hn Hl]. now apply tokenize_from_spec. Qed.

Lemma flat_map_head {A B : Type} (f : A -> list B) (x : A) (l : list A) :
  flat_map f (x :: l) = (f x ++ flat_map f l)%list.
Proof. reflexivity. Qed.

Lemma program_refs_spec (lines : list string) :
  Forall within_limits (statements lines) ->
  program_refs lines = spec_program_refs lines.
Proof.
  unfold program_refs, spec_program_refs.
  induction (statements lines) as [|p ps IH]; intro H; [reflexivity|].
  inversion H as [|? ? Hp Hps]; subst.
  rewrite !flat_map_head, (tokenize_spec p Hp). now rewrite IH.
Qed.

(** The variables declared are the variables used, no more and no fewer.
    When no statement line has more than 100 tokens or a word of more than
    63 characters, a name is in the final table exactly when it occurs in
    the text of some statement as a variable (an identifier after [print],
    the target of [input], the left side of an assignment or an identifier
    on its right side); every such name is an identifier and its slot is
    below the number of variables declared. *)
Theorem declared_iff_referenced (lines : list string) (st : state) (nm : string) :
  Forall within_limits (statements lines) ->
  compile_file lines initial_state = Ok (tt, st) ->
  (In nm (names (vars st)) <-> In nm (spec_program_refs lines)) /\
  (In nm (spec_program_refs lines) ->
   is_identifier nm = true /\ slot_of nm (names (vars st)) < var_count st).
Proof.
  intros Hw E. rewrite <- (program_refs_spec lines Hw).
  destruct (compile_file_table _ _ E) as [En _].
  assert (Hiff : In nm (names (vars st)) <-> In nm (program_refs lines)).
  { rewrite En. unfold distinct. rewrite distinct_from_In. simpl. tauto. }
  split; [exact Hiff|]. intro Hin. split.
  - pose proof (program_refs_identifiers _ _ _ E) as Hr.
    rewrite Forall_forall in Hr. now apply Hr.
  - apply Hiff in Hin. destruct (slot_of_lt _ _ Hin) as [Hlt _].
    unfold var_count. unfold names in Hlt. now rewrite length_map in Hlt.
Qed.

Lemma declared_iff_referenced_witness :
  In "y" (names [mkVariable "x" 1%Z; mkVariable "y" 1%Z;
                 mkVariable "result" 1%Z]) <->
  In "y" (spec_program_refs sample).
Proof.
  apply (declared_iff_referenced sample
           (mkState [mkVariable "x" 1%Z; mkVariable "y" 1%Z;
                     mkVariable "result" 1%Z]
              ["    v0 = 5;"; "    v1 = 10;"; "    v2 = v0 + v1;";
               ("    printf(" ++ String dquote "%lld\n" ++ String dquote ", "
                ++ "v2" ++ ");")%string]) "y").
  - apply Forall_forall. intros p Hin. vm_compute in Hin.
    repeat (destruct Hin as [<-|Hin];
            [split; [by_evaluation
                    | vm_compute; repeat (apply Forall_cons; [lia|]);
                      apply Forall_nil]|]).
    contradiction.
  - vm_compute. reflexivity.
Defined.

(** ** More on the tokenizer *)

Lemma take_word_split (room : nat) (p : string) :
  fst (take_word room p) ++ snd (take_word room p) = p.
Proof.
  revert p. induction room as [|room IH]; intro p; [reflexivity|].
  destruct p as [|c r]; [reflexivity|]. cbn [take_word].
  destruct (is_word_char c); [|reflexivity].
  specialize (IH r). destruct (take_word room r). simpl in *.
  now rewrite IH.
Qed.

Lemma remove_spaces_word (w rest : string) :
  all_word_chars w = true ->
  remove_spaces (w ++ rest) = w ++ remove_spaces rest.
Proof.
  induction w as [|c w IH]; [reflexivity|]. simpl.
  destruct (is_word_char c) eqn:W; [|discriminate].
  intro H. now rewrite (word_not_space c W), (IH H).
Qed.

Lemma remove_spaces_skip (p : string) :
  remove_spaces (skip_spaces p) = remove_spaces p.
Proof.
  induction p as [|c r IH]; [reflexivity|]. simpl.
  destruct (isspace c) eqn:S; [exact IH|]. simpl. now rewrite S.
Qed.

Lemma tokenize_from_glue (room : nat) (p : string) :
  exists rest,
    remove_spaces p = glue (tokenize_from room p) ++ rest /\
    (length (tokenize_from room p) < room -> rest = "").
Proof.
  revert p. induction room as [|room IH]; intro p.
  - exists (remove_spaces p). split; [reflexivity | simpl; lia].
  - cbn [tokenize_from]. rewrite <- (remove_spaces_skip p).
    destruct (skip_spaces p) as [|c r] eqn:E.
    + exists "". split; [reflexivity | reflexivity].
    + destruct (is_word_char c) eqn:W.
      * pose proof (take_word_split TOKEN_CHARS (String c r)) as Hs.
        pose proof (take_word_word TOKEN_CHARS (String c r)) as Hw.
        destruct (take_word TOKEN_CHARS (String c r)) as [tok rest'].
        cbn [fst snd] in Hs, Hw. rewrite <- Hs.
        rewrite (remove_spaces_word _ _ Hw).
        destruct (IH rest') as (rest & E1 & E2).
        exists rest. cbn [glue fold_right length]. fold (glue (tokenize_from room rest')).
        rewrite E1, append_assoc. split; [reflexivity|].
        intro L. apply E2. lia.
      * destruct (IH r) as (rest & E1 & E2).
        exists rest. cbn [glue fold_right length remove_spaces].
        fold (glue (tokenize_from room r)).
        rewrite (skip_spaces_head _ _ _ E), E1.
        split; [reflexivity|]. intro L. apply E2. lia.
Qed.

(** The tokenizer neither loses nor invents a character: the tokens, laid
    end to end, are the characters of the line that are not whitespace, in
    order, up to the point where the 100th token ends; when fewer than 100
    tokens come out they are all of them. *)
Theorem tokens_cover_line (line : string) :
  (exists rest, remove_spaces line = glue (tokenize line) ++ rest) /\
  (length (tokenize line) < MAX_TOKENS ->
   glue (tokenize line) = remove_spaces line).
Proof.
  unfold tokenize.
  destruct (tokenize_from_glue MAX_TOKENS line) as (rest & E1 & E2).
  split; [now exists rest|].
  intro L. rewrite E1, (E2 L). now rewrite append_nil_r.
Qed.

Lemma tokens_cover_line_witness :
  glue (tokenize "  total = (a+b) * 2 ") = remove_spaces "  total = (a+b) * 2 ".
Proof.
  apply (tokens_cover_line "  total = (a+b) * 2 ").
  apply Nat.ltb_lt. vm_compute. reflexivity.
Defined.

Lemma token_shape_identifier (tok : string) :
  token_shape tok -> is_identifier tok = starts_like_name tok.
Proof.
  intros [[Hne Hw]|(c & -> & W & _)].
  - destruct tok as [|c r]; [congruence|]. simpl in *.
    destruct (is_word_char c); [|discriminate]. rewrite Hw.
    destruct (isalpha c); simpl; [reflexivity|].
    now destruct (Ascii.eqb c underscore).
  - simpl. unfold is_word_char, isalnum in W.
    destruct (isalpha c); [discriminate|]. simpl in *.
    destruct (Ascii.eqb c underscore); [|reflexivity].
    now rewrite orb_true_r in W.
Qed.

Lemma tokenize_shape (line : string) : Forall token_shape (tokenize line).
Proof. unfold tokenize. apply tokenize_from_shape. Qed.

(** For a token of the tokenizer the first character decides: it is
    replaced by a variable reference exactly when it starts with a letter or
    an underscore, so a number, a word that starts with a digit and every
    operator or bracket reach the generated line unchanged, whatever the
    table holds. *)
Theorem token_substitution (line tok : string) (tbl : list variable) :
  In tok (tokenize line) ->
  is_identifier tok = starts_like_name tok /\
  (starts_like_name tok = true ->
   render tbl tok = "v" ++ fmt_d (slot_of tok (names tbl))) /\
  (starts_like_name tok = false -> render tbl tok = tok).
Proof.
  intro Hin. pose proof (tokenize_shape line) as Hs.
  rewrite Forall_forall in Hs.
  pose proof (token_shape_identifier tok (Hs tok Hin)) as E.
  split; [exact E|]. rewrite <- E. split; intro H.
  - now apply render_identifier.
  - now apply render_other.
Qed.

Lemma token_substitution_witness :
  is_identifier "2x" = starts_like_name "2x"
  /\ (starts_like_name "2x" = true ->
      render [mkVariable "2x" 1%Z] "2x" =
      "v" ++ fmt_d (slot_of "2x" (names [mkVariable "2x" 1%Z])))
  /\ (starts_like_name "2x" = false ->
      render [mkVariable "2x" 1%Z] "2x" = "2x").
Proof.
  apply (token_substitution "y = 2x + _t" "2x" [mkVariable "2x" 1%Z]).
  vm_compute. auto.
Defined.

(** ** The names given to the variables *)

Lemma string_of_uint_word (d : Decimal.uint) :
  all_word_chars (NilEmpty.string_of_uint d) = true.
Proof. induction d; simpl; assumption || reflexivity. Qed.

Lemma fmt_d_decimal_all :
  forallb (fun k => String.eqb (fmt_d k) (decimal 3 k)) (seq 0 (S MAX_VARS))
  = true.
Proof. vm_compute. reflexivity. Qed.

(** The C name of a slot: different slots have different names, the name
    is an identifier ([v] and digits), so it is substituted as such, and
    for every slot the table can hold the digits are the decimal notation of
    the slot, without leading zero. *)
Theorem var_ref_distinct (i j : nat) :
  (var_ref i = var_ref j -> i = j) /\
  is_identifier (var_ref i) = true /\
  (i <= MAX_VARS -> var_ref i = "v" ++ decimal 3 i).
Proof.
  split; [|split].
  - unfold var_ref, fmt_d. intro E. injection E as E.
    apply DecimalNat.Unsigned.to_uint_inj.
    pose proof (NilEmpty.usu (Nat.to_uint i)) as Hi.
    pose proof (NilEmpty.usu (Nat.to_uint j)) as Hj.
    rewrite E in Hi. congruence.
  - unfold var_ref, fmt_d. simpl. apply string_of_uint_word.
  - intro L. unfold var_ref. f_equal.
    pose proof fmt_d_decimal_all as H. rewrite forallb_forall in H.
    apply String.eqb_eq, H, in_seq. lia.
Qed.

Lemma var_ref_distinct_witness : var_ref 255 = "v" ++ decimal 3 255.
Proof.
  apply (var_ref_distinct 255 0). apply Nat.leb_le. vm_compute. reflexivity.
Defined.

(** ** The names of the files *)

Lemma string_length_app (a b : string) :
  String.length (a ++ b) = String.length a + String.length b.
Proof. induction a as [|x a IH]; simpl; [reflexivity | now rewrite IH]. Qed.

Lemma string_take_drop (i : nat) (s : string) :
  string_take i s ++ string_drop i s = s.
Proof.
  revert s. induction i as [|i IH]; intro s; [reflexivity|].
  destruct s as [|c r]; [reflexivity|]. simpl. now rewrite IH.
Qed.

Lemma string_take_app (s t : string) :
  string_take (String.length s) (s ++ t) = s.
Proof. induction s as [|c s IH]; simpl; [reflexivity | now rewrite IH]. Qed.

Lemma string_drop_app (s t : string) :
  string_drop (String.length s) (s ++ t) = t.
Proof. induction s as [|c s IH]; simpl; [now destruct t | exact IH]. Qed.

Lemma string_take_all (n : nat) (s : string) :
  String.length s <= n -> string_take n s = s.
Proof.
  revert s. induction n as [|n IH]; intros s L.
  - destruct s; [reflexivity | simpl in L; lia].
  - destruct s as [|c r]; [reflexivity|]. simpl in *.
    rewrite IH; [reflexivity | lia].
Qed.

Lemma strrchr_kpso (s : string) :
  strrchr (s ++ ".kpso") "."%char = Some (String.length s).
Proof.
  induction s as [|c s IH]; [reflexivity|].
  simpl. now rewrite IH.
Qed.

Lemma strip_kpso_suffix (s : string) : strip_kpso (s ++ ".kpso") = s.
Proof.
  unfold strip_kpso.
  rewrite strrchr_kpso, string_drop_app, string_take_app. reflexivity.
Qed.

Lemma strip_kpso_cases (path : string) :
  strip_kpso path = path \/ path = strip_kpso path ++ ".kpso".
Proof.
  unfold strip_kpso. destruct (strrchr path "."%char) as [dot|]; [|now left].
  destruct (String.eqb_spec (string_drop dot path) ".kpso") as [E|_];
    [|now left].
  right. rewrite <- E. symmetry. apply string_take_drop.
Qed.

Lemma base_name_fits (path : string) :
  String.length path <= PATH_CHARS -> base_name path = Some (strip_kpso path).
Proof.
  intro L. unfold base_name.
  destruct (Nat.leb_spec (String.length path) PATH_CHARS); [reflexivity | lia].
Qed.

(** The extension [.kpso] is taken off and nothing else: for a path that
    fits [base_name], at most 255 characters, a path that ends in [.kpso]
    loses exactly these five characters, whatever dots it has before, and
    any other path is kept whole; a longer path does not fit the array. *)
Theorem base_name_extension (path : string) :
  (forall s, path = s ++ ".kpso" -> String.length path <= PATH_CHARS ->
             base_name path = Some s) /\
  (String.length path <= PATH_CHARS ->
   exists base, base_name path = Some base /\
                (base = path \/ path = base ++ ".kpso")) /\
  (PATH_CHARS < String.length path -> base_name path = None).
Proof.
  split; [|split].
  - intros s -> L. rewrite (base_name_fits _ L). f_equal.
    apply strip_kpso_suffix.
  - intro L. exists (strip_kpso path). split; [now apply base_name_fits|].
    apply strip_kpso_cases.
  - intro L. unfold base_name.
    destruct (Nat.leb_spec (String.length path) PATH_CHARS); [lia|reflexivity].
Qed.

Lemma base_name_extension_witness :
  base_name "dir.d/my.prog.kpso" = Some "dir.d/my.prog".
Proof.
  destruct (base_name_extension "dir.d/my.prog.kpso") as (H & _).
  apply H; [reflexivity | by_evaluation].
Defined.

(** For a source path [s.kpso] short enough for [base_name], the C file
    is [s.c], the executable is [s] and the command is
    [gcc s.c -o s]: none of the three buffers cuts its text. *)
Theorem file_names (s : string) :
  String.length (s ++ ".kpso") <= PATH_CHARS ->
  output_name (s ++ ".kpso") = Some (s ++ ".c") /\
  exe_name (s ++ ".kpso") = Some s /\
  compile_cmd (s ++ ".kpso") = Some ("gcc " ++ s ++ ".c -o " ++ s).
Proof.
  intro L.
  assert (Hb : base_name (s ++ ".kpso") = Some s).
  { rewrite (base_name_fits _ L). f_equal. apply strip_kpso_suffix. }
  rewrite string_length_app in L. simpl in L.
  assert (Eo : output_name (s ++ ".kpso") = Some (s ++ ".c")).
  { unfold output_name. rewrite Hb. f_equal. apply string_take_all.
    rewrite string_length_app. simpl. unfold PATH_CHARS in *. lia. }
  assert (Ee : exe_name (s ++ ".kpso") = Some s).
  { unfold exe_name. rewrite Hb. f_equal. apply string_take_all.
    unfold PATH_CHARS in *. lia. }
  split; [exact Eo|]. split; [exact Ee|].
  unfold compile_cmd. rewrite Eo, Ee. f_equal.
  rewrite string_take_all; [now rewrite append_assoc|].
  repeat (rewrite ?string_length_app; cbn [String.length append]).
  unfold PATH_CHARS in *. lia.
Qed.

Lemma file_names_witness :
  output_name "prog.kpso" = Some "prog.c" /\
  exe_name "prog.kpso" = Some "prog" /\
  compile_cmd "prog.kpso" = Some "gcc prog.c -o prog".
Proof.
  apply (file_names "prog"). by_evaluation.
Defined.

(** A path of 255 characters that does not end in [.kpso] leaves no room
    for the [.c]: the name of the C file is the path of the source itself,
    which the output then replaces. *)
Theorem output_name_is_source (path : string) :
  String.length path = PATH_CHARS ->
  base_name path = Some path ->
  output_name path = Some path.
Proof.
  intros L B. unfold output_name. rewrite B, <- L. f_equal.
  apply string_take_app.
Qed.

Lemma output_name_is_source_witness :
  output_name (repeat_string 255 "a") = Some (repeat_string 255 "a").
Proof.
  apply (output_name_is_source (repeat_string 255 "a"));
    vm_compute; reflexivity.
Defined.

(** ** When a compilation succeeds *)















(** ** Edge cases of [compile_line] *)

Lemma skip_spaces_blank (p : string) :
  all_spaces p = true -> skip_spaces p = "".
Proof.
  induction p as [|c r IH]; [reflexivity|]. simpl.
  destruct (isspace c); [exact IH | discriminate].
Qed.

Lemma tokenize_from_blank (room : nat) (p : string) :
  all_spaces p = true -> tokenize_from room p = [].
Proof.
  intro H. destruct room as [|room]; [reflexivity|].
  cbn [tokenize_from]. now rewrite (skip_spaces_blank p H).
Qed.

(** Given the empty line or a line of whitespace, [compile_line] returns
    without an error and without touching the table or the output. *)
Theorem compile_line_blank (p : string) (st : state) :
  all_spaces p = true -> compile_line p st = Ok (tt, st).
Proof.
  intro H. destruct p as [|c r]; [reflexivity|].
  unfold compile_line, tokenize. now rewrite (tokenize_from_blank _ _ H).
Qed.

Lemma compile_line_blank_witness :
  compile_line "   " (mkState [mkVariable "x" 1%Z] ["    v0 = 1;"]) =
  Ok (tt, mkState [mkVariable "x" 1%Z] ["    v0 = 1;"]).
Proof. apply (compile_line_blank "   "). reflexivity. Defined.

Lemma compile_tokens_overrun (tokens : list string) (st : state) :
  tokens <> [] ->
  compile_tokens tokens st = Overrun ->
  statement_error tokens = None /\ hd "" tokens <> "input".
Proof.
  intros Hne E. pose proof (compile_tokens_cases tokens st Hne) as H.
  rewrite E in H. destruct (statement_error tokens); [discriminate|].
  destruct H as [[_ H]|[H _]]; [|now split].
  destruct (overflows _ _); [discriminate|]. unfold emitted in H.
  destruct (MAX_LINES <=? output_count st)%nat; discriminate.
Qed.

(** A compilation ends in one of three ways: without error, through
    [error] with one of seven messages, or by writing past the end of
    [output], which only a well-shaped [print] or assignment does. *)
Theorem fatal_is_diagnostic (lines : list string) (st : state) :
  (forall msg, compile_file lines st = Fatal msg -> In msg diagnostics) /\
  (compile_file lines st = Overrun ->
   exists p, In p (statements lines) /\
             statement_error (tokenize p) = None /\
             hd "" (tokenize p) <> "input").
Proof.
  revert st. induction lines as [|line rest IH]; intro st;
    [split; discriminate|].
  cbn [compile_file statements].
  destruct (statement_of line) as [p|] eqn:Es; [|apply IH].
  destruct (statement_of_tokens _ _ Es) as [Hne Ecl].
  unfold bind. rewrite Ecl.
  destruct (compile_tokens (tokenize p) st) as [[[] st1]|m|] eqn:E1.
  - destruct (IH st1) as [IH1 IH2]. split; [exact IH1|].
    intro E. destruct (IH2 E) as (q & Hq & Hrest).
    exists q. split; [now right | exact Hrest].
  - split; [|discriminate].
    intros msg E. injection E as <-.
    exact (compile_tokens_fatal _ _ _ Hne E1).
  - split; [discriminate|]. intros _. exists p.
    split; [now left | exact (compile_tokens_overrun _ _ Hne E1)].
Qed.

Lemma fatal_is_diagnostic_witness : In "Invalid statement" diagnostics.
Proof.
  destruct (fatal_is_diagnostic ["x = 1"; "x + 1"] initial_state) as [H _].
  apply H. vm_compute. reflexivity.
Defined.
